(** * Angewandte Chemie open-access tracker: the two pipelines and their store

    The repository holds two scripts that poll Crossref for open-access
    papers and append the unseen ones to [angew_open_access_papers.csv]:

    - [angew_scaper.py]  (module [Scaper] below): fetch, normalise, dedupe
      against the [doi] column, enrich missing abstracts from Europe PMC,
      append rows [title, year, doi, url, license, abstract, retrieved];
    - [angew_scraper.py] (module [Scraper] below): fetch, dedupe against the
      [DOI] column (dropping empty identifiers), normalise, append rows
      [Title, Authors, DOI, URL, Date, Abstract].

    Modelling choices.
    - Text is a [string] holding the UTF-8 encoding of the Python [str];
      [str.strip] removes the characters for which [str.isspace] holds, in
      their encoded form.
    - A Python exception is a value [Raise e] of [result]; [try/except
      Exception] is [try_except].
    - A Crossref work is a record of optional fields (a missing key is
      [None]); the Europe PMC payload, whose malformed shapes matter, is an
      untyped JSON value with Python's dynamic operations on it.
    - The CSV file is modelled at two levels.  Over its records (modules
      [Scaper], [Scraper]): the file is the sequence of its records, each one
      terminated as [csv.writer] leaves it, and [None] is a file that does
      not exist; this is the view of a file that [csv.reader] reads without
      an exception and whose last record ends with its line break.  Over its
      bytes (modules [ScaperOnDisk], [ScraperOnDisk]): the file is the
      string of its bytes, read through the UTF-8 decoder, the line
      iteration of the text file and the parser of [csv.reader] with its
      field limit, and written as [csv.writer] writes; this covers a file of
      any content.  The runs at the two levels are related at the end.
      [csv.DictReader] takes the first record as the field names.
    - Each element of [papers] is a dict of its own, so the assignments to
      [p["abstract"]] and [p["retrieved"]] are updates of that record. *)

From Stdlib Require Import ZArith String Ascii List Bool Lia DecimalString.
From stdpp Require Import base option list strings gmap.

Local Open Scope string_scope.
Local Open Scope Z_scope.
Local Open Scope list_scope.

(** ** Exceptions *)

Inductive exn : Set :=
| IndexError | KeyError | AttributeError | TypeError
| JSONDecodeError | HTTPError | ConnectionError
| UnicodeDecodeError | csv_Error.

Inductive result (A : Type) : Type :=
| Ok (a : A)
| Raise (e : exn).
Arguments Ok {A} a.
Arguments Raise {A} e.

#[global] Instance result_ret : MRet result := fun _ a => Ok a.
#[global] Instance result_bind : MBind result := fun _ _ f m =>
  match m with Ok a => f a | Raise e => Raise e end.

(** [try: body except Exception: return d] *)
Definition try_except {A} (body : result A) (d : A) : A :=
  match body with Ok a => a | Raise _ => d end.

(** [for x in xs: ys.append(f(x))], stopping at the first exception. *)
Fixpoint for_each {A B} (f : A → result B) (xs : list A) : result (list B) :=
  match xs with
  | [] => Ok []
  | x :: xs' => y ← f x; ys ← for_each f xs'; Ok (y :: ys)
  end.

(** ** Strings *)

(** Text is held as its UTF-8 encoding, one [ascii] per byte.  The
    characters with [str.isspace] are U+0009..U+000D, U+001C..U+001F, U+0020,
    U+0085, U+00A0, U+1680, U+2000..U+200A, U+2028, U+2029, U+202F, U+205F
    and U+3000; the three tests below recognise their encodings of one, two
    and three bytes. *)
Definition py_isspace (c : ascii) : bool :=
  let n := nat_of_ascii c in
  ((9 <=? n) && (n <=? 13) || (28 <=? n) && (n <=? 32))%nat.

Definition py_isspace2 (c1 c2 : ascii) : bool :=
  let a := nat_of_ascii c1 in
  let b := nat_of_ascii c2 in
  ((a =? 194) && ((b =? 133) || (b =? 160)))%nat.

Definition py_isspace3 (c1 c2 c3 : ascii) : bool :=
  let a := nat_of_ascii c1 in
  let b := nat_of_ascii c2 in
  let c := nat_of_ascii c3 in
  ((a =? 225) && (b =? 154) && (c =? 128)
   || (a =? 226) && (b =? 128)
      && ((128 <=? c) && (c <=? 138) || (c =? 168) || (c =? 169) || (c =? 175))
   || (a =? 226) && (b =? 129) && (c =? 159)
   || (a =? 227) && (b =? 128) && (c =? 128))%nat.

(** [s.lstrip()] *)
Fixpoint lstrip (s : string) : string :=
  match s with
  | EmptyString => EmptyString
  | String c1 s1 =>
      if py_isspace c1 then lstrip s1 else
      match s1 with
      | EmptyString => s
      | String c2 s2 =>
          if py_isspace2 c1 c2 then lstrip s2 else
          match s2 with
          | EmptyString => s
          | String c3 s3 => if py_isspace3 c1 c2 c3 then lstrip s3 else s
          end
      end
  end.

(** [s.rstrip()]: nothing is left of a text that is whitespace throughout;
    otherwise its first byte stays and the rest is stripped. *)
Fixpoint rstrip (s : string) : string :=
  match s with
  | EmptyString => EmptyString
  | String c s' =>
      if String.eqb (lstrip s) EmptyString then EmptyString
      else String c (rstrip s')
  end.

(** [s.strip()] *)
Definition strip (s : string) : string := rstrip (lstrip s).

(** [s.replace(old, new)] for a non-empty [old]: occurrences are replaced
    from the left and do not overlap; [skip] counts the characters of a
    replaced occurrence still to be dropped. *)
Fixpoint replace_from (old new : string) (skip : nat) (s : string) : string :=
  match s with
  | EmptyString => EmptyString
  | String c s' =>
      match skip with
      | S k => replace_from old new k s'
      | O =>
          if String.prefix old s
          then new +:+ replace_from old new (String.length old - 1) s'
          else String c (replace_from old new O s')
      end
  end.

Definition replace (old new s : string) : string := replace_from old new O s.

(** [sep.join(parts)] *)
Definition join (sep : string) (parts : list string) : string :=
  String.concat sep parts.

(** [str(n)] for an [int] *)
Definition str_int (n : Z) : string := NilZero.string_of_int (Z.to_int n).

Definition newline : string := String (ascii_of_nat 10) EmptyString.

(** Truth value of a string: [bool(s)] *)
Definition truthy_str (s : string) : bool := negb (String.eqb s "").

(** ** HTTP *)

(** What [requests.get] yields: a connection failure or timeout (an
    exception), or a response with a status code and a body; the body is
    [None] when [response.json()] cannot decode it. *)
Inductive http_outcome (B : Type) : Type :=
| NetworkFailure
| Response (status : Z) (body : option B).
Arguments NetworkFailure {B}.
Arguments Response {B} status body.

(** [response.ok]: the status is not a 4xx or 5xx. *)
Definition ok_status (status : Z) : bool :=
  negb ((400 <=? status) && (status <? 600)).

(** [r = requests.get(...); r.raise_for_status(); return r.json()] *)
Definition get_json {B} (o : http_outcome B) : result B :=
  match o with
  | NetworkFailure => Raise ConnectionError
  | Response status body =>
      if ok_status status
      then match body with Some b => Ok b | None => Raise JSONDecodeError end
      else Raise HTTPError
  end.

(** ** Untyped JSON values and Python's operations on them *)

#[local] Set Warnings "-register-all".

Inductive json : Type :=
| JNull
| JBool (b : bool)
| JNum (n : Z)
| JStr (s : string)
| JArr (xs : list json)
| JObj (kvs : list (string * json)).

(** The binding of [k] that a [dict] built by successive assignments holds:
    the last one. *)
Definition assoc_last {V} (k : string) (kvs : list (string * V)) : option V :=
  fold_left (fun acc kv => if String.eqb (fst kv) k then Some (snd kv) else acc)
            kvs None.

(** [bool(v)] *)
Definition truthy (v : json) : bool :=
  match v with
  | JNull => false
  | JBool b => b
  | JNum n => negb (n =? 0)
  | JStr s => truthy_str s
  | JArr xs => match xs with [] => false | _ => true end
  | JObj kvs => match kvs with [] => false | _ => true end
  end.

(** [v.get(k, d)]: only a [dict] has the method. *)
Definition py_get (v : json) (k : string) (d : json) : result json :=
  match v with
  | JObj kvs => Ok (default d (assoc_last k kvs))
  | _ => Raise AttributeError
  end.

(** The number of bytes of the character a UTF-8 lead byte starts. *)
Definition utf8_width (c : ascii) : nat :=
  let n := nat_of_ascii c in
  if (n <? 192)%nat then 1%nat
  else if (n <? 224)%nat then 2%nat
  else if (n <? 240)%nat then 3%nat
  else 4%nat.

(** [v[0]]: of a text, its first character. *)
Definition py_index0 (v : json) : result json :=
  match v with
  | JArr (x :: _) => Ok x
  | JArr [] => Raise IndexError
  | JStr (String c s) => Ok (JStr (String.substring 0 (utf8_width c) (String c s)))
  | JStr EmptyString => Raise IndexError
  | JObj _ => Raise KeyError
  | JNull | JBool _ | JNum _ => Raise TypeError
  end.

(** [v.strip()]: only a [str] has the method. *)
Definition py_strip (v : json) : result string :=
  match v with
  | JStr s => Ok (strip s)
  | _ => Raise AttributeError
  end.

(** ** Crossref works *)

Record license_obj := { lic_URL : option string }.
Record author_obj := { au_family : option string }.
Record issued_obj := { date_parts : option (list (list (option Z))) }.

(** One element of [message.items]; [None] is a key that is not there. *)
Record work := {
  w_title : option (list string);
  w_DOI : option string;
  w_URL : option string;
  w_license : option (list license_obj);
  w_issued : option issued_obj;
  w_abstract : option string;
  w_author : option (list author_obj)
}.

Record message_obj := { items : option (list work) }.
Record crossref_data := { message : option message_obj }.

(** [data.get("message", {}).get("items", [])] *)
Definition items_of (data : crossref_data) : list work :=
  match message data with
  | None => []
  | Some m => default [] (items m)
  end.

(** [item.get("issued", {}).get("date-parts", [[None]])] *)
Definition date_parts_of (item : work) : list (list (option Z)) :=
  match w_issued item with
  | None => [[None]]
  | Some i => default [[None]] (date_parts i)
  end.

(** ** The CSV file *)

Abbreviation csv_record := (list string).
Abbreviation csv_file := (list (list string)).

(** The file system as the scripts see it: the one path they use. *)
Abbreviation store := (option (list (list string))).

(** One row of [csv.DictReader]: the field names zipped with the fields;
    names beyond a short row are bound to [None] afterwards. *)
Definition dict_row (fieldnames row : csv_record) : list (string * option string) :=
  ((fun kv => (kv.1, Some kv.2)) <$> zip fieldnames row)
  ++ ((fun k => (k, None)) <$> drop (length row) fieldnames).

(** [row[k]] *)
Definition getitem (d : list (string * option string)) (k : string)
  : result (option string) :=
  match assoc_last k d with
  | Some v => Ok v
  | None => Raise KeyError
  end.

(** [csv.DictReader(f)]: the first record names the fields, blank records
    are skipped. *)
Definition DictReader (f : csv_file) : list (list (string * option string)) :=
  match f with
  | [] => []
  | fieldnames :: rows =>
      dict_row fieldnames <$> filter (fun r => r ≠ []) rows
  end.

(** The values of column [k], in file order. *)
Definition column (k : string) (st : store) : result (list (option string)) :=
  match st with
  | None => Ok []
  | Some f => for_each (fun d => getitem d k) (DictReader f)
  end.

(** [open(path, "a")] followed by the optional header and the rows. *)
Definition append_records (fieldnames : csv_record) (rows : list csv_record)
    (st : store) : store :=
  match st with
  | None => Some (fieldnames :: rows)
  | Some f => Some (f ++ rows)
  end.

(** ** The CSV file, byte by byte *)

(** [csv.field_size_limit()] *)
Definition field_limit : N := 131072.

Definition LF : ascii := ascii_of_nat 10.
Definition CR : ascii := ascii_of_nat 13.
Definition delimiter : ascii := ","%char.
Definition quotechar : ascii := ascii_of_nat 34.

(** [c == '\n' || c == '\r'] *)
Definition is_newline (c : ascii) : bool := Ascii.eqb c LF || Ascii.eqb c CR.

(** A byte 10xxxxxx continues the character begun before it. *)
Definition continuation (c : ascii) : bool :=
  (128 <=? nat_of_ascii c)%nat && (nat_of_ascii c <? 192)%nat.

(** *** Decoding: [open(..., encoding="utf-8")] *)

(** What the decoder still expects after the bytes seen: nothing, [n] more
    continuation bytes, or a second byte restricted by the first one. *)
Inductive utf8_state : Set :=
| U_start | U_more (n : nat) | U_E0 | U_ED | U_F0 | U_F4 | U_invalid.

Definition utf8_step (st : utf8_state) (c : ascii) : utf8_state :=
  let b := nat_of_ascii c in
  match st with
  | U_start =>
      if (b <? 128)%nat then U_start
      else if (b <? 194)%nat then U_invalid
      else if (b <? 224)%nat then U_more 1
      else if (b =? 224)%nat then U_E0
      else if (b =? 237)%nat then U_ED
      else if (b <? 240)%nat then U_more 2
      else if (b =? 240)%nat then U_F0
      else if (b <? 244)%nat then U_more 3
      else if (b =? 244)%nat then U_F4
      else U_invalid
  | U_more n =>
      if continuation c
      then match n with S (S m) => U_more (S m) | _ => U_start end
      else U_invalid
  | U_E0 => if (160 <=? b)%nat && (b <? 192)%nat then U_more 1 else U_invalid
  | U_ED => if (128 <=? b)%nat && (b <? 160)%nat then U_more 1 else U_invalid
  | U_F0 => if (144 <=? b)%nat && (b <? 192)%nat then U_more 2 else U_invalid
  | U_F4 => if (128 <=? b)%nat && (b <? 144)%nat then U_more 2 else U_invalid
  | U_invalid => U_invalid
  end.

Fixpoint utf8_run (st : utf8_state) (s : string) : utf8_state :=
  match s with
  | EmptyString => st
  | String c s' => utf8_run (utf8_step st c) s'
  end.

(** The bytes decode as UTF-8. *)
Definition valid_utf8 (s : string) : bool :=
  match utf8_run U_start s with U_start => true | _ => false end.

(** The number of bytes before the first one the decoder rejects. *)
Fixpoint utf8_accepted (st : utf8_state) (s : string) : nat :=
  match s with
  | EmptyString => O
  | String c s' =>
      match utf8_step st c with
      | U_invalid => O
      | st' => S (utf8_accepted st' s')
      end
  end.

(** The characters decoded from the bytes, up to the first byte rejected or
    the character the bytes end in; [pending] holds the bytes of the
    character being decoded. *)
Fixpoint utf8_decoded (st : utf8_state) (pending s : string) : string :=
  match s with
  | EmptyString => EmptyString
  | String c s' =>
      match utf8_step st c with
      | U_start => pending +:+ String c (utf8_decoded U_start EmptyString s')
      | U_invalid => EmptyString
      | st' => utf8_decoded st' (pending +:+ String c EmptyString) s'
      end
  end.

(** *** [for line in f], the file opened with [newline=""]: the lines with
    their terminators ["\n"], ["\r\n"] or ["\r"]; [line] is the part of the
    current line already seen.  At the end of the file ([eof]) an
    unterminated line is a line as well. *)
Fixpoint readlines (eof : bool) (line s : string) : list string :=
  match s with
  | EmptyString =>
      if eof && negb (String.eqb line EmptyString) then [line] else []
  | String c s' =>
      if Ascii.eqb c LF
      then (line +:+ String LF EmptyString) :: readlines eof EmptyString s'
      else if Ascii.eqb c CR
      then match s' with
           | String c' s'' =>
               if Ascii.eqb c' LF
               then (line +:+ String CR (String LF EmptyString))
                      :: readlines eof EmptyString s''
               else (line +:+ String CR EmptyString)
                      :: readlines eof EmptyString s'
           | EmptyString => [line +:+ String CR EmptyString]
           end
      else readlines eof (line +:+ String c EmptyString) s'
  end.

(** [TextIOWrapper] reads the file in chunks of this many bytes. *)
Definition chunk_size : nat := N.to_nat 8192.

(** A carriage return that ends the text decoded so far is held back until
    the character after it is known. *)
Fixpoint hold_cr (s : string) : string :=
  match s with
  | EmptyString => EmptyString
  | String c EmptyString => if Ascii.eqb c CR then EmptyString else s
  | String c s' => String c (hold_cr s')
  end.

(** The lines the iteration over the file yields, and the exception that
    ends it when the bytes are not UTF-8.  The decoder raises when it is
    given the chunk with the first byte it rejects, or at the end of a file
    that ends inside a character; until then the lines of the chunks decoded
    before are yielded. *)
Definition file_lines (b : string) : list string * option exn :=
  if valid_utf8 b then (readlines true EmptyString b, None)
  else
    let p := utf8_accepted U_start b in
    let n := if (p <? String.length b)%nat
             then (chunk_size * (p / chunk_size))%nat
             else String.length b in
    (readlines false EmptyString
       (hold_cr (utf8_decoded U_start EmptyString (String.substring 0 n b))),
     Some UnicodeDecodeError).

(** *** [csv.reader], dialect excel: the comma as delimiter, the double
    quote as quotechar, doublequote, no escapechar, not strict.  The states
    of the parser in [_csv.c]; those after an escape character cannot be
    reached. *)
Inductive parser_state : Set :=
| START_RECORD | START_FIELD | IN_FIELD | IN_QUOTED_FIELD
| QUOTE_IN_QUOTED_FIELD | EAT_CRNL.

#[global] Instance parser_state_eq_dec : EqDecision parser_state.
Proof. solve_decision. Defined.

(** The reader object: [field_len] counts the characters of [field]. *)
Record parser := {
  state : parser_state;
  field : string;
  field_len : N;
  fields : list string
}.

Definition parse_reset : parser :=
  {| state := START_RECORD; field := EmptyString; field_len := 0; fields := [] |}.

Definition set_state (st : parser_state) (p : parser) : parser :=
  {| state := st; field := field p; field_len := field_len p;
     fields := fields p |}.

(** [parse_save_field], followed by the assignment to [state]. *)
Definition parse_save_field (st : parser_state) (p : parser) : parser :=
  {| state := st; field := EmptyString; field_len := 0;
     fields := fields p ++ [field p] |}.

(** [parse_add_char], followed by the assignment to [state].  The limit is
    on characters: a byte that continues a character is stored with it. *)
Definition parse_add_char (st : parser_state) (c : ascii) (p : parser)
  : result parser :=
  if continuation c
  then Ok {| state := st; field := field p +:+ String c EmptyString;
             field_len := field_len p; fields := fields p |}
  else if (field_limit <=? field_len p)%N then Raise csv_Error
  else Ok {| state := st; field := field p +:+ String c EmptyString;
             field_len := field_len p + 1; fields := fields p |}.

(** The case [START_FIELD] of [parse_process_char]. *)
Definition start_field (c : ascii) (p : parser) : result parser :=
  if is_newline c then Ok (parse_save_field EAT_CRNL p)
  else if Ascii.eqb c quotechar then Ok (set_state IN_QUOTED_FIELD p)
  else if Ascii.eqb c delimiter then Ok (parse_save_field START_FIELD p)
  else parse_add_char IN_FIELD c p.

(** [parse_process_char] on a character of the line. *)
Definition parse_process_char (c : ascii) (p : parser) : result parser :=
  match state p with
  | START_RECORD =>
      if is_newline c then Ok (set_state EAT_CRNL p) else start_field c p
  | START_FIELD => start_field c p
  | IN_FIELD =>
      if is_newline c then Ok (parse_save_field EAT_CRNL p)
      else if Ascii.eqb c delimiter then Ok (parse_save_field START_FIELD p)
      else parse_add_char IN_FIELD c p
  | IN_QUOTED_FIELD =>
      if Ascii.eqb c quotechar then Ok (set_state QUOTE_IN_QUOTED_FIELD p)
      else parse_add_char IN_QUOTED_FIELD c p
  | QUOTE_IN_QUOTED_FIELD =>
      if Ascii.eqb c quotechar then parse_add_char IN_QUOTED_FIELD c p
      else if Ascii.eqb c delimiter then Ok (parse_save_field START_FIELD p)
      else if is_newline c then Ok (parse_save_field EAT_CRNL p)
      else parse_add_char IN_FIELD c p
  | EAT_CRNL =>
      if is_newline c then Ok p else Raise csv_Error
  end.

(** [parse_process_char] at the end of the line. *)
Definition parse_process_eol (p : parser) : parser :=
  match state p with
  | START_RECORD => p
  | START_FIELD | IN_FIELD | QUOTE_IN_QUOTED_FIELD =>
      parse_save_field START_RECORD p
  | IN_QUOTED_FIELD => p
  | EAT_CRNL => set_state START_RECORD p
  end.

(** The characters of (a part of) a line, one after the other. *)
Fixpoint parse_chars (s : string) (p : parser) : result parser :=
  match s with
  | EmptyString => Ok p
  | String c s' => p' ← parse_process_char c p; parse_chars s' p'
  end.

(** One turn of the loop of [Reader_iternext]. *)
Definition parse_line (line : string) (p : parser) : result parser :=
  p' ← parse_chars line p; Ok (parse_process_eol p').

(** The loop of [Reader_iternext] over the lines there are: the records
    yielded, and the parser as the last line leaves it or the exception
    raised.  A record is complete when a line leaves the parser in
    [START_RECORD]; the next one starts from [parse_reset]. *)
Fixpoint read_records (p : parser) (lines : list string)
  : list (list string) * result parser :=
  match lines with
  | [] => ([], Ok p)
  | line :: rest =>
      match parse_line line p with
      | Raise x => ([], Raise x)
      | Ok p' =>
          if bool_decide (state p' = START_RECORD)
          then let out := read_records parse_reset rest in
               (fields p' :: out.1, out.2)
          else read_records p' rest
      end
  end.

(** What [Reader_iternext] does when there is no further line: it passes on
    the exception [stop] of the iteration over the file, and at the end of
    the input yields a record left open inside quotes as it stands. *)
Definition end_of_input (p : parser) (stop : option exn)
  : list (list string) * option exn :=
  match stop with
  | Some x => ([], Some x)
  | None =>
      if negb (field_len p =? 0)%N || bool_decide (state p = IN_QUOTED_FIELD)
      then ([fields (parse_save_field START_RECORD p)], None)
      else ([], None)
  end.

(** The iteration over the reader: the records it yields and the exception
    that ends the iteration, if one does. *)
Definition reader (lines : list string) (stop : option exn)
  : list (list string) * option exn :=
  let out := read_records parse_reset lines in
  match out.2 with
  | Raise x => (out.1, Some x)
  | Ok p => let last := end_of_input p stop in (out.1 ++ last.1, last.2)
  end.

(** [csv.reader(f)] on the file [f] of bytes [b]. *)
Definition csv_reader (b : string) : list (list string) * option exn :=
  let f := file_lines b in reader f.1 f.2.

(** *** [csv.writer], dialect excel: QUOTE_MINIMAL, lineterminator
    ["\r\n"]. *)

(** The field needs quotes: it holds the delimiter, the quote character or
    a character of the line terminator. *)
Fixpoint needs_quotes (s : string) : bool :=
  match s with
  | EmptyString => false
  | String c s' =>
      Ascii.eqb c delimiter || Ascii.eqb c quotechar || is_newline c
      || needs_quotes s'
  end.

(** The characters of the field, each quote character doubled. *)
Fixpoint double_quotes (s : string) : string :=
  match s with
  | EmptyString => EmptyString
  | String c s' =>
      if Ascii.eqb c quotechar
      then String quotechar (String quotechar (double_quotes s'))
      else String c (double_quotes s')
  end.

Definition write_field (quoted : bool) (s : string) : string :=
  if quoted
  then String quotechar (double_quotes s) +:+ String quotechar EmptyString
  else s.

(** [writer.writerow(row)]: a row of one empty field is written in quotes. *)
Definition writerow (row : list string) : string :=
  match row with
  | [EmptyString] => write_field true EmptyString
  | _ => join (String delimiter EmptyString)
           ((fun s => write_field (needs_quotes s) s) <$> row)
  end +:+ String CR (String LF EmptyString).

Definition writerows (rows : list (list string)) : string :=
  String.concat EmptyString (writerow <$> rows).

(** The values of column [k] as the loop over [csv.DictReader(f)] collects
    them: a [KeyError] at the first row without the key, else the
    exception that ends the iteration, if one does. *)
Definition read_column (k : string) (file : option string)
  : result (list (option string)) :=
  match file with
  | None => Ok []
  | Some b =>
      let out := csv_reader b in
      vals ← for_each (fun d => getitem d k) (DictReader out.1);
      match out.2 with
      | Some x => Raise x
      | None => Ok vals
      end
  end.

(** [open(path, "a", newline="", encoding="utf-8")] followed by the optional
    header and the rows: the bytes go after those of the file. *)
Definition append_rows (fieldnames : list string) (rows : list (list string))
    (file : option string) : option string :=
  match file with
  | None => Some (writerows (fieldnames :: rows))
  | Some b => Some (b +:+ writerows rows)
  end.

(** [xs[0]] on a list *)
Definition first {A} (xs : list A) : result A :=
  match xs with
  | [] => Raise IndexError
  | x :: _ => Ok x
  end.

(** ** What a run does to the outside: the file, and a trace of the
    enrichment queries, pauses and printed notices. *)

Inductive notice : Type :=
| Searching
| NoneFound
| Enriching (doi : string)
| Added (n : nat).

Inductive event : Type :=
| Says (m : notice)
| QueryEuropePMC (doi : string)
| Sleep.

Record world := { fs : store; trace : list event }.

Definition emit (evs : list event) (w : world) : world :=
  {| fs := fs w; trace := trace w ++ evs |}.

(** * angew_scaper.py *)

Module Scaper.

Definition fieldnames : csv_record :=
  ["title"; "year"; "doi"; "url"; "license"; "abstract"; "retrieved"].

Definition sentinel : string := "Abstract not available".

(** The dict appended to [papers]. *)
Record paper := {
  title : string;
  doi : string;
  url : string;
  license : string;
  year : option Z;
  abstract : option string
}.

(** The body of the loop over [items]. *)
Definition paper_of_item (item : work) : result paper :=
  title ← first (default ["No title"] (w_title item));
  let doi := default "" (w_DOI item) in
  let url := default "" (w_URL item) in
  lic ← first (default [{| lic_URL := None |}] (w_license item));
  let license_info := default "No license info" (lic_URL lic) in
  parts ← first (date_parts_of item);
  year ← first parts;
  let abstract := strip (replace newline " " (default "" (w_abstract item))) in
  Ok {| title := title; doi := doi; url := url; license := license_info;
        year := year;
        abstract := if truthy_str abstract then Some abstract else None |}.

Definition find_open_access_angew_papers_from
    (crossref : http_outcome crossref_data) : result (list paper) :=
  data ← get_json crossref;
  for_each paper_of_item (items_of data).

(** The [try] block of [get_abstract_from_europepmc]. *)
Definition europepmc_try (o : http_outcome json) : result (option string) :=
  match o with
  | NetworkFailure => Raise ConnectionError
  | Response status body =>
      if negb (ok_status status) then Ok None else
      data ← from_option Ok (Raise JSONDecodeError) body;
      result_list ← py_get data "resultList" (JObj []);
      results ← py_get result_list "result" (JArr []);
      if negb (truthy results) then Ok None else
      r0 ← py_index0 results;
      abstract ← py_get r0 "abstractText" JNull;
      if truthy abstract then s ← py_strip abstract; Ok (Some s) else Ok None
  end.

(** [service] is Europe PMC: what it answers to the query ["DOI:<doi>"]. *)
Definition get_abstract_from_europepmc (service : string → http_outcome json)
    (doi : string) : option string :=
  try_except (europepmc_try (service doi)) None.

(** The surroundings of one run: the Crossref answer, the Europe PMC answer
    to the query made for the [i]-th new entry, and the clock read when the
    [i]-th row is written. *)
Record env := {
  crossref : http_outcome crossref_data;
  europepmc : nat → string → http_outcome json;
  now : nat → string
}.

(** [not p["abstract"]] *)
Definition lacks_abstract (p : paper) : bool :=
  match abstract p with
  | None => true
  | Some s => negb (truthy_str s)
  end.

(** [abstract or "Abstract not available"] *)
Definition or_sentinel (a : option string) : string :=
  match a with
  | Some s => if truthy_str s then s else sentinel
  | None => sentinel
  end.

(** One turn of the enrichment loop, for the [i]-th new entry. *)
Definition enrich (e : env) (i : nat) (p : paper) : paper * list event :=
  if lacks_abstract p
  then ({| title := title p; doi := doi p; url := url p; license := license p;
           year := year p;
           abstract :=
             Some (or_sentinel (get_abstract_from_europepmc (europepmc e i) (doi p))) |},
        [Says (Enriching (doi p)); QueryEuropePMC (doi p); Sleep])
  else (p, []).

(** [writer.writerow(p)] once [p["retrieved"]] is set: [None] is written
    as the empty field, a number in decimal. *)
Definition row_of (p : paper) (retrieved : string) : csv_record :=
  [title p; from_option str_int "" (year p); doi p; url p; license p;
   default "" (abstract p); retrieved].

(** [[p for p in papers if p["doi"] not in existing_dois]] *)
Definition new_entries_of (existing_dois : gset (option string))
    (papers : list paper) : list paper :=
  filter (fun p => Some (doi p) ∉ existing_dois) papers.

(** The rows the two loops over [new_entries] end up writing. *)
Definition written_rows (e : env) (new_entries : list paper) : list csv_record :=
  imap (fun i p => row_of p (now e i)) (fst <$> imap (enrich e) new_entries).

Definition save_results_to_csv (e : env) (papers : list paper) (w : world)
  : world * result unit :=
  match column "doi" (fs w) with
  | Raise x => (w, Raise x)
  | Ok vals =>
      let existing_dois : gset (option string) := list_to_set vals in
      let new_entries := new_entries_of existing_dois papers in
      match new_entries with
      | [] => (emit [Says NoneFound] w, Ok ())
      | _ =>
          ({| fs := append_records fieldnames (written_rows e new_entries) (fs w);
              trace := trace w ++ concat (snd <$> imap (enrich e) new_entries)
                       ++ [Says (Added (length new_entries))] |},
           Ok ())
      end
  end.

(** The script's entry point. *)
Definition main (e : env) (w : world) : world * result unit :=
  let w := emit [Says Searching] w in
  match find_open_access_angew_papers_from (crossref e) with
  | Raise x => (w, Raise x)
  | Ok papers => save_results_to_csv e papers w
  end.

End Scaper.

(** * angew_scraper.py *)

Module Scraper.

Definition fieldnames : csv_record :=
  ["Title"; "Authors"; "DOI"; "URL"; "Date"; "Abstract"].

(** The dict appended to [new_entries]. *)
Record entry := {
  Title : string;
  Authors : string;
  DOI : string;
  URL : string;
  Date : string;
  Abstract : string
}.

Definition get_crossref_data (crossref : http_outcome crossref_data)
  : result crossref_data :=
  get_json crossref.

Definition load_existing_dois (st : store) : result (gset (option string)) :=
  vals ← column "DOI" st;
  Ok (list_to_set vals).

Definition row_of (r : entry) : csv_record :=
  [Title r; Authors r; DOI r; URL r; Date r; Abstract r].

Definition append_to_csv (results : list entry) (st : store) : store :=
  append_records fieldnames (row_of <$> results) st.

(** [str(p) for p in parts if p]: [None] and [0] are dropped. *)
Definition shown_parts (parts : list (option Z)) : list string :=
  omap (fun p => match p with
                 | Some n => if n =? 0 then None else Some (str_int n)
                 | None => None
                 end) parts.

(** ["-".join(str(p) for p in parts if p)] *)
Definition pub_date_of (parts : list (option Z)) : string :=
  join "-" (shown_parts parts).

(** The body of the loop in [main] after the [continue] test. *)
Definition entry_of_item (i : work) (doi : string) : result entry :=
  let title := join " " (default [] (w_title i)) in
  let authors := join ", " (omap au_family (default [] (w_author i))) in
  parts ← first (date_parts_of i);
  let pub_date := pub_date_of parts in
  let abstract :=
    strip (replace "</jats:p>" "" (replace "<jats:p>" "" (default "" (w_abstract i)))) in
  let url := default "" (w_URL i) in
  Ok {| Title := title; Authors := authors; DOI := doi; URL := url;
        Date := pub_date; Abstract := abstract |}.

(** The loop of [main] over [items]. *)
Fixpoint collect (existing_dois : gset (option string)) (items : list work)
  : result (list entry) :=
  match items with
  | [] => Ok []
  | i :: rest =>
      let doi := default "" (w_DOI i) in
      if negb (truthy_str doi) || bool_decide (Some doi ∈ existing_dois)
      then collect existing_dois rest
      else r ← entry_of_item i doi;
           rs ← collect existing_dois rest;
           Ok (r :: rs)
  end.

Definition main (crossref : http_outcome crossref_data) (w : world)
  : world * result unit :=
  let w := emit [Says Searching] w in
  match get_crossref_data crossref with
  | Raise x => (w, Raise x)
  | Ok data =>
      let items := items_of data in
      match load_existing_dois (fs w) with
      | Raise x => (w, Raise x)
      | Ok existing_dois =>
          match collect existing_dois items with
          | Raise x => (w, Raise x)
          | Ok [] => (emit [Says NoneFound] w, Ok ())
          | Ok new_entries =>
              ({| fs := append_to_csv new_entries (fs w);
                  trace := trace w ++ [Says (Added (length new_entries))] |},
               Ok ())
          end
      end
  end.

End Scraper.

(** * The two scripts over the bytes of the file *)

(** The outside of a run once more, the file now being the bytes it holds. *)
Record machine := { file : option string; log : list event }.

Definition say (evs : list event) (m : machine) : machine :=
  {| file := file m; log := log m ++ evs |}.

Module ScaperOnDisk.

Definition save_results_to_csv (e : Scaper.env) (papers : list Scaper.paper)
    (m : machine) : machine * result unit :=
  match read_column "doi" (file m) with
  | Raise x => (m, Raise x)
  | Ok vals =>
      let existing_dois : gset (option string) := list_to_set vals in
      let new_entries := Scaper.new_entries_of existing_dois papers in
      match new_entries with
      | [] => (say [Says NoneFound] m, Ok ())
      | _ =>
          ({| file := append_rows Scaper.fieldnames
                        (Scaper.written_rows e new_entries) (file m);
              log := log m
                     ++ concat (snd <$> imap (Scaper.enrich e) new_entries)
                     ++ [Says (Added (length new_entries))] |},
           Ok ())
      end
  end.

Definition main (e : Scaper.env) (m : machine) : machine * result unit :=
  let m := say [Says Searching] m in
  match Scaper.find_open_access_angew_papers_from (Scaper.crossref e) with
  | Raise x => (m, Raise x)
  | Ok papers => save_results_to_csv e papers m
  end.

End ScaperOnDisk.

Module ScraperOnDisk.

Definition load_existing_dois (file : option string)
  : result (gset (option string)) :=
  vals ← read_column "DOI" file;
  Ok (list_to_set vals).

Definition append_to_csv (results : list Scraper.entry)
    (file : option string) : option string :=
  append_rows Scraper.fieldnames (Scraper.row_of <$> results) file.

Definition main (crossref : http_outcome crossref_data) (m : machine)
  : machine * result unit :=
  let m := say [Says Searching] m in
  match Scraper.get_crossref_data crossref with
  | Raise x => (m, Raise x)
  | Ok data =>
      let items := items_of data in
      match load_existing_dois (file m) with
      | Raise x => (m, Raise x)
      | Ok existing_dois =>
          match Scraper.collect existing_dois items with
          | Raise x => (m, Raise x)
          | Ok [] => (say [Says NoneFound] m, Ok ())
          | Ok new_entries =>
              ({| file := append_to_csv new_entries (file m);
                  log := log m ++ [Says (Added (length new_entries))] |},
               Ok ())
          end
      end
  end.

End ScraperOnDisk.

(** * Vocabulary of the properties *)

(** A store as the scripts create it: no file yet, or a file whose first
    record is the header of the script that reads it. *)
Definition store_ok (fieldnames : csv_record) (st : store) : Prop :=
  match st with
  | None => True
  | Some f => ∃ rows, f = fieldnames :: rows
  end.

(** The third field of every non-blank data record: the column both scripts
    keep the identifier in. *)
Definition identifiers (st : store) : list (option string) :=
  match st with
  | Some (_ :: rows) => (fun r => r !! 2%nat) <$> filter (fun r => r ≠ []) rows
  | _ => []
  end.

(** The page of works a Crossref answer carries, if it carries one. *)
Definition page (o : http_outcome crossref_data) : list work :=
  match get_json o with
  | Ok data => items_of data
  | Raise _ => []
  end.

(** The identifier a script reads off a work: [item.get("DOI", "")]. *)
Definition doi_of (i : work) : string := default "" (w_DOI i).

(** The primary fetch raises: no connection, or a 4xx/5xx status. *)
Definition fetch_fails {B} (o : http_outcome B) : Prop :=
  match o with
  | NetworkFailure => True
  | Response status _ => ok_status status = false
  end.

(** The number of additions a run reports last. *)
Definition added (w : world) : nat :=
  match last (trace w) with
  | Some (Says (Added k)) => k
  | _ => O
  end.

(** The identifiers Europe PMC was queried for, in order. *)
Definition queries (tr : list event) : list string :=
  omap (fun ev => match ev with QueryEuropePMC d => Some d | _ => None end) tr.

(** The number of one-second pauses. *)
Definition pauses (tr : list event) : nat :=
  length (omap (fun ev => match ev with Sleep => Some () | _ => None end) tr).

(** A work on which the normalisation of [angew_scaper.py] indexes an empty
    list. *)
Definition bad_shape (item : work) : Prop :=
  w_title item = Some [] ∨ w_license item = Some []
  ∨ date_parts_of item = [] ∨ ∃ rest, date_parts_of item = [] :: rest.

(** [c in s] *)
Fixpoint occurs (c : ascii) (s : string) : bool :=
  match s with
  | EmptyString => false
  | String c' s' => Ascii.eqb c c' || occurs c s'
  end.

(** The events one turn of the enrichment loop leaves. *)
Definition enrich_events (p : Scaper.paper) : list event :=
  if Scaper.lacks_abstract p
  then [Says (Enriching (Scaper.doi p)); QueryEuropePMC (Scaper.doi p); Sleep]
  else [].

(** ** Whitespace, told independently of [strip] *)

(** The UTF-8 encoding of a code point below U+10000. *)
Definition utf8_encode (cp : N) : string :=
  if (cp <? 128)%N then String (ascii_of_N cp) EmptyString
  else if (cp <? 2048)%N then
    String (ascii_of_N (192 + cp / 64))
      (String (ascii_of_N (128 + cp mod 64)) EmptyString)
  else
    String (ascii_of_N (224 + cp / 4096))
      (String (ascii_of_N (128 + (cp / 64) mod 64))
         (String (ascii_of_N (128 + cp mod 64)) EmptyString)).

(** The code points for which [str.isspace] holds. *)
Definition whitespace_code_points : list N :=
  [9; 10; 11; 12; 13; 28; 29; 30; 31; 32; 133; 160; 5760;
   8192; 8193; 8194; 8195; 8196; 8197; 8198; 8199; 8200; 8201; 8202;
   8232; 8233; 8239; 8287; 12288]%N.

Definition py_whitespace : list string := utf8_encode <$> whitespace_code_points.

(** [l] is a run of whitespace characters. *)
Inductive spaces : string → Prop :=
| spaces_nil : spaces EmptyString
| spaces_cons w l : w ∈ py_whitespace → spaces l → spaces (w +:+ l).

Definition space_first (s : string) : Prop :=
  ∃ w t, w ∈ py_whitespace ∧ s = w +:+ t.

Definition space_last (s : string) : Prop :=
  ∃ w t, w ∈ py_whitespace ∧ s = t +:+ w.

(** [s] is [text] without the whitespace at its two ends. *)
Definition trimmed (text s : string) : Prop :=
  ∃ l r, text = l +:+ s +:+ r ∧ spaces l ∧ spaces r
         ∧ ¬ space_first s ∧ ¬ space_last s.

(** The value a JSON object holds under [k]: that of the last member named
    [k]. *)
Definition binds {V} (kvs : list (string * V)) (k : string) (v : V) : Prop :=
  ∃ before after, kvs = before ++ (k, v) :: after ∧ k ∉ (fst <$> after).

(** ** Vocabulary for files *)

(** The number of characters of a text. *)
Fixpoint code_points (s : string) : N :=
  match s with
  | EmptyString => 0
  | String c s' => (if continuation c then 0 else 1) + code_points s'
  end.

(** Each field of the row is within the reader's limit. *)
Definition fits (row : list string) : bool :=
  forallb (fun s => (code_points s <=? field_limit)%N) row.

(** The text is empty or ends with a carriage return or a line feed. *)
Fixpoint ends_line (s : string) : bool :=
  match s with
  | EmptyString => true
  | String c EmptyString => is_newline c
  | String _ s' => ends_line s'
  end.

(** The last record of the file is terminated: the bytes end with a line
    break that is not inside a quoted field. *)
Definition terminated (b : string) : Prop :=
  ends_line b = true
  ∧ (read_records parse_reset (readlines true EmptyString b)).2
    = Ok parse_reset.

(** A store in good order for a script: no file yet, or a file that is read
    without an exception, starts with the header of the script and has its
    last record terminated. *)
Definition kept (fieldnames : list string) (file : option string) : Prop :=
  match file with
  | None => True
  | Some b => terminated b ∧ ∃ rows, csv_reader b = (fieldnames :: rows, None)
  end.


(** The file holds the records [st]: [csv.reader] yields them, and no
    exception. *)
Definition holds (file : option string) (st : store) : Prop :=
  match file, st with
  | None, None => True
  | Some b, Some recs => csv_reader b = (recs, None)
  | _, _ => False
  end.

(** The file, if there is one, can be read to its end. *)
Definition readable (file : option string) : Prop :=
  match file with
  | None => True
  | Some b => (csv_reader b).2 = None
  end.

(** The last record of the file, if there is one, is terminated. *)
Definition well_ended (file : option string) : Prop :=
  match file with
  | None => True
  | Some b => terminated b
  end.

(** Every field of the row is UTF-8. *)
Definition encoded (row : list string) : bool := forallb valid_utf8 row.

(** ** Vocabulary of the proofs about the reader *)

(** The result of a step that may raise, continued by [k]. *)
Definition and_then (r : result parser)
    (k : parser → list (list string) * result parser)
  : list (list string) * result parser :=
  match r with
  | Ok q => k q
  | Raise x => ([], Raise x)
  end.

(** No character of the text is a carriage return or a line feed. *)
Fixpoint one_line (s : string) : bool :=
  match s with
  | EmptyString => true
  | String c s' => negb (is_newline c) && one_line s'
  end.

(** The text does not start with a line feed. *)
Definition no_LF_first (s : string) : Prop :=
  match s with
  | String c _ => c ≠ LF
  | EmptyString => True
  end.

(** The parser once the text [f] has been added to its field. *)
Definition extend (st : parser_state) (f : string) (p : parser) : parser :=
  {| state := st; field := field p +:+ f;
     field_len := field_len p + code_points f; fields := fields p |}.

(** Adding the text [f], as far as the limit allows. *)
Definition add_text (st : parser_state) (f : string) (p : parser)
  : result parser :=
  if (field_len p + code_points f <=? field_limit)%N
  then Ok (extend st f p) else Raise csv_Error.

(** The parser at the start of a field. *)
Definition at_field_start (p : parser) : Prop :=
  (state p = START_RECORD ∨ state p = START_FIELD)
  ∧ field p = EmptyString ∧ field_len p = 0%N.

(** The parser after the delimiter that ends the fields [fs]. *)
Definition next_field (fs : list string) : parser :=
  {| state := START_FIELD; field := EmptyString; field_len := 0; fields := fs |}.

(** What follows the first field of a row: the other fields, each behind
    its delimiter, and the line terminator. *)
Fixpoint row_tail (fs : list string) : string :=
  match fs with
  | [] => String CR (String LF EmptyString)
  | f :: fs' =>
      String delimiter (write_field (needs_quotes f) f +:+ row_tail fs')
  end.

(** * Sample inputs *)

Definition cc_by : license_obj :=
  {| lic_URL := Some "https://creativecommons.org/licenses/by/4.0/" |}.

(** A complete work without an inline abstract. *)
Definition work_abc : work :=
  {| w_title := Some ["A paper"];
     w_DOI := Some "10.1/abc";
     w_URL := Some "https://doi.org/10.1/abc";
     w_license := Some [cc_by];
     w_issued := Some {| date_parts := Some [[Some 2024; Some 7; Some 15]] |};
     w_abstract := None;
     w_author := Some [{| au_family := Some "Curie" |}] |}.

(** The same work as Crossref would send it with one key changed. *)
Definition work_no_doi : work :=
  {| w_title := w_title work_abc; w_DOI := None; w_URL := w_URL work_abc;
     w_license := w_license work_abc; w_issued := w_issued work_abc;
     w_abstract := w_abstract work_abc; w_author := w_author work_abc |}.

Definition work_no_title : work :=
  {| w_title := None; w_DOI := w_DOI work_abc; w_URL := w_URL work_abc;
     w_license := w_license work_abc; w_issued := w_issued work_abc;
     w_abstract := w_abstract work_abc; w_author := w_author work_abc |}.

Definition work_empty_title : work :=
  {| w_title := Some []; w_DOI := w_DOI work_abc; w_URL := w_URL work_abc;
     w_license := w_license work_abc; w_issued := w_issued work_abc;
     w_abstract := w_abstract work_abc; w_author := w_author work_abc |}.

Definition work_empty_license : work :=
  {| w_title := w_title work_abc; w_DOI := w_DOI work_abc; w_URL := w_URL work_abc;
     w_license := Some []; w_issued := w_issued work_abc;
     w_abstract := w_abstract work_abc; w_author := w_author work_abc |}.

Definition work_year_month : work :=
  {| w_title := w_title work_abc; w_DOI := w_DOI work_abc; w_URL := w_URL work_abc;
     w_license := w_license work_abc;
     w_issued := Some {| date_parts := Some [[Some 2024; Some 7]] |};
     w_abstract := w_abstract work_abc; w_author := w_author work_abc |}.

(** A successful Crossref answer carrying the page [ws]. *)
Definition answer (ws : list work) : http_outcome crossref_data :=
  Response 200 (Some {| message := Some {| items := Some ws |} |}).

(** A Europe PMC that cannot be reached. *)
Definition europepmc_down : nat → string → http_outcome json :=
  fun _ _ => NetworkFailure.

(** A Europe PMC that knows one abstract for every identifier. *)
Definition europepmc_up : nat → string → http_outcome json :=
  fun _ _ =>
    Response 200
      (Some (JObj [("resultList",
                    JObj [("result",
                           JArr [JObj [("abstractText",
                                        JStr " Example abstract. ")]])])])).

Definition env_of (ws : list work) (epmc : nat → string → http_outcome json)
  : Scaper.env :=
  {| Scaper.crossref := answer ws;
     Scaper.europepmc := epmc;
     Scaper.now := fun _ => "2025-07-02 09:00" |}.

(** No store file yet, nothing printed yet. *)
Definition fresh : world := {| fs := None; trace := [] |}.


(** A store of each script holding the row of [work_abc]. *)
Definition scaper_store : world :=
  {| fs := Some [Scaper.fieldnames;
                 ["A paper"; "2024"; "10.1/abc"; "https://doi.org/10.1/abc";
                  "https://creativecommons.org/licenses/by/4.0/";
                  "Abstract not available"; "2025-07-01 09:00"]];
     trace := [] |}.

Definition scraper_store : world :=
  {| fs := Some [Scraper.fieldnames;
                 ["A paper"; "Curie"; "10.1/abc"; "https://doi.org/10.1/abc";
                  "2024-7-15"; ""]];
     trace := [] |}.

Definition work_xyz : work :=
  {| w_title := Some ["Another paper"]; w_DOI := Some "10.1/xyz";
     w_URL := Some "https://doi.org/10.1/xyz";
     w_license := w_license work_abc; w_issued := w_issued work_abc;
     w_abstract := Some "<jats:p>Known.</jats:p>"; w_author := None |}.

(** A work Crossref lists with an empty list of date parts. *)
Definition work_no_date : work :=
  {| w_title := Some ["Undated"]; w_DOI := Some "10.1/undated";
     w_URL := None; w_license := w_license work_abc;
     w_issued := Some {| date_parts := Some [] |};
     w_abstract := None; w_author := None |}.

(** A work whose inline abstract runs over two lines. *)
Definition work_two_lines : work :=
  {| w_title := Some ["Two lines"]; w_DOI := Some "10.1/two";
     w_URL := None; w_license := w_license work_abc;
     w_issued := w_issued work_abc;
     w_abstract := Some (" First line," +:+ newline +:+ "second line. ");
     w_author := None |}.

(** ** Sample files *)

(** The file [csv.writer] leaves for the records of [w]. *)
Definition on_disk (w : world) : machine :=
  {| file := writerows <$> fs w; log := trace w |}.



(** * The CSV layer *)

Lemma for_each_fmap_ok {A B C} (h : A → B) (f : B → result C) (g : A → C)
    (xs : list A) :
  (∀ x, f (h x) = Ok (g x)) → for_each f (h <$> xs) = Ok (g <$> xs).
Proof.
  intros Hf. induction xs as [|x xs IH]; [done|].
  cbn. rewrite Hf. cbn. rewrite IH. done.
Qed.

Lemma getitem_doi (r : csv_record) :
  getitem (dict_row Scaper.fieldnames r) "doi" = Ok (r !! 2%nat).
Proof.
  destruct r as [|a [|b [|c [|d [|e [|f [|g r]]]]]]]; try reflexivity.
  unfold dict_row. cbn. rewrite drop_nil. reflexivity.
Qed.

Lemma getitem_DOI (r : csv_record) :
  getitem (dict_row Scraper.fieldnames r) "DOI" = Ok (r !! 2%nat).
Proof.
  destruct r as [|a [|b [|c [|d [|e [|f r]]]]]]; try reflexivity.
  unfold dict_row. cbn. rewrite drop_nil. reflexivity.
Qed.

Section Column.
Variables (fieldnames : csv_record) (k : string).
Hypothesis getitem_k :
  ∀ r, getitem (dict_row fieldnames r) k = Ok (r !! 2%nat).

Lemma column_store_ok (st : store) :
  store_ok fieldnames st → column k st = Ok (identifiers st).
Proof.
  destruct st as [f|]; [|done].
  intros [rows ->]. cbn.
  by apply for_each_fmap_ok.
Qed.

Lemma store_ok_append (rows : list csv_record) (st : store) :
  store_ok fieldnames st → store_ok fieldnames (append_records fieldnames rows st).
Proof.
  destruct st as [f|]; cbn; [|by eexists].
  intros [old ->]. by eexists.
Qed.

Lemma identifiers_append (rows : list csv_record) (st : store) :
  store_ok fieldnames st →
  Forall (fun r => r ≠ []) rows →
  identifiers (append_records fieldnames rows st)
  = identifiers st ++ ((fun r => r !! 2%nat) <$> rows).
Proof.
  intros Hst Hrows.
  assert (filter (fun r : csv_record => r ≠ []) rows = rows) as Hf.
  { induction Hrows as [|r rows Hr _ IH]; [done|].
    rewrite filter_cons_True by done. by rewrite IH. }
  destruct st as [f|]; unfold identifiers, append_records.
  - destruct Hst as [old ->].
    change ((fieldnames :: old) ++ rows) with (fieldnames :: (old ++ rows)).
    cbv beta iota. by rewrite filter_app, fmap_app, Hf.
  - by rewrite Hf.
Qed.

End Column.

Lemma filter_none {A} (P : A → Prop) `{!∀ x, Decision (P x)} (l : list A) :
  (∀ x, x ∈ l → ¬ P x) → filter P l = [].
Proof.
  induction l as [|x l IH]; intros Hall; [done|].
  rewrite filter_cons_False by (apply Hall; left).
  apply IH. intros y Hy. apply Hall. by right.
Qed.

Lemma fs_emit (evs : list event) (w : world) : fs (emit evs w) = fs w.
Proof. done. Qed.

(** * angew_scaper.py: the run *)

Section ScaperRun.
Import Scaper.

Lemma doi_enrich e i p : doi (enrich e i p).1 = doi p.
Proof. unfold enrich. by destruct (lacks_abstract p). Qed.

Lemma written_rows_imap e new :
  written_rows e new = imap (fun i p => row_of (enrich e i p).1 (now e i)) new.
Proof.
  unfold written_rows. apply list_eq. intros i.
  rewrite !list_lookup_imap, list_lookup_fmap, list_lookup_imap.
  by destruct (new !! i).
Qed.

Lemma written_rows_lookup e new i p :
  new !! i = Some p →
  written_rows e new !! i = Some (row_of (enrich e i p).1 (now e i)).
Proof. intros H. by rewrite written_rows_imap, list_lookup_imap, H. Qed.

Lemma written_rows_length e new : length (written_rows e new) = length new.
Proof. by rewrite written_rows_imap, length_imap. Qed.

Lemma written_rows_ids e new :
  (fun r => r !! 2%nat) <$> written_rows e new = (fun p => Some (doi p)) <$> new.
Proof.
  rewrite written_rows_imap, fmap_imap, <- imap_const.
  apply imap_ext. intros i p _. cbn. by rewrite doi_enrich.
Qed.

Lemma written_rows_nonblank e new :
  Forall (fun r => r ≠ []) (written_rows e new).
Proof.
  rewrite written_rows_imap. apply Forall_forall. intros r Hr.
  apply list_elem_of_lookup in Hr as [i Hi].
  rewrite list_lookup_imap in Hi.
  destruct (new !! i); by simplify_eq/=.
Qed.

(** What the store holds after [save_results_to_csv], for a store with
    the script's header. *)
Lemma save_fs e papers w :
  store_ok fieldnames (fs w) →
  let new := new_entries_of (list_to_set (identifiers (fs w))) papers in
  fs (save_results_to_csv e papers w).1
  = match new with
    | [] => fs w
    | _ => append_records fieldnames (written_rows e new) (fs w)
    end.
Proof.
  intros Hok. unfold save_results_to_csv.
  rewrite (column_store_ok _ _ getitem_doi _ Hok).
  by destruct (new_entries_of _ papers).
Qed.

Lemma save_identifiers e papers w :
  store_ok fieldnames (fs w) →
  identifiers (fs (save_results_to_csv e papers w).1)
  = identifiers (fs w)
    ++ ((fun p => Some (doi p))
          <$> new_entries_of (list_to_set (identifiers (fs w))) papers).
Proof.
  intros Hok. rewrite save_fs by done. cbv zeta.
  destruct (new_entries_of _ papers) as [|p new] eqn:Hnew.
  - by rewrite app_nil_r.
  - rewrite (identifiers_append fieldnames) by auto using written_rows_nonblank.
    by rewrite written_rows_ids.
Qed.

Lemma save_store_ok e papers w :
  store_ok fieldnames (fs w) →
  store_ok fieldnames (fs (save_results_to_csv e papers w).1).
Proof.
  intros Hok. rewrite save_fs by done. cbv zeta.
  destruct (new_entries_of _ papers); [done|].
  by apply store_ok_append.
Qed.

(** Every identifier of [papers] is recorded once the new entries are. *)
Lemma new_entries_of_again (ids : list (option string)) papers :
  new_entries_of
    (list_to_set (ids ++ ((fun p => Some (doi p))
                            <$> new_entries_of (list_to_set ids) papers)))
    papers = [].
Proof.
  apply filter_none. intros p Hp Hnot. apply Hnot.
  rewrite elem_of_list_to_set, elem_of_app.
  destruct (decide (Some (doi p) ∈ ids)) as [|Hfresh]; [by left|right].
  apply (list_elem_of_fmap_2 (fun p => Some (doi p))).
  apply list_elem_of_filter. split; [|done].
  by rewrite elem_of_list_to_set.
Qed.

Lemma save_twice e e' papers w :
  store_ok fieldnames (fs w) →
  fs (save_results_to_csv e' papers (save_results_to_csv e papers w).1).1
  = fs (save_results_to_csv e papers w).1.
Proof.
  intros Hok.
  rewrite (save_fs e') by by apply save_store_ok.
  cbv zeta. rewrite save_identifiers by done.
  by rewrite new_entries_of_again.
Qed.

Lemma scaper_main_twice e e' w :
  store_ok fieldnames (fs w) →
  crossref e' = crossref e →
  fs (main e' (main e w).1).1 = fs (main e w).1.
Proof.
  intros Hok Hcr. unfold main. rewrite Hcr.
  destruct (find_open_access_angew_papers_from (crossref e)) as [papers|x];
    [|done].
  set (w1 := emit [Says Searching] w).
  assert (store_ok fieldnames (fs w1)) as Hok1 by done.
  rewrite (save_fs e') by (rewrite fs_emit; by apply save_store_ok).
  cbv zeta. rewrite fs_emit, save_identifiers by done.
  by rewrite new_entries_of_again.
Qed.

(** Every run leaves a store that starts with the header. *)
Lemma scaper_main_store_ok e w :
  store_ok fieldnames (fs w) → store_ok fieldnames (fs (main e w).1).
Proof.
  intros Hok. unfold main. cbv zeta.
  destruct (find_open_access_angew_papers_from (crossref e)); [|done].
  by apply save_store_ok.
Qed.

End ScaperRun.

(** * angew_scraper.py: the run *)

Section ScraperRun.
Import Scraper.

Lemma truthy_str_spec (s : string) : truthy_str s = true ↔ s ≠ "".
Proof.
  unfold truthy_str. rewrite negb_true_iff.
  split.
  - intros H ->. by rewrite String.eqb_refl in H.
  - intros H. by apply String.eqb_neq.
Qed.

Lemma entry_of_item_DOI i doi r : entry_of_item i doi = Ok r → DOI r = doi.
Proof.
  unfold entry_of_item. destruct (first (date_parts_of i)); cbn; [|done].
  by intros [= <-].
Qed.

(** The identifiers [collect] keeps: those of the page that are neither
    empty nor recorded, in page order. *)
Lemma collect_dois ex items es :
  collect ex items = Ok es →
  DOI <$> es = filter (fun d => d ≠ "" ∧ Some d ∉ ex) (doi_of <$> items).
Proof.
  revert es. induction items as [|i rest IH]; intros es.
  { by intros [= <-]. }
  cbn [collect]. rewrite fmap_cons, filter_cons. fold (doi_of i).
  destruct (truthy_str (doi_of i)) eqn:Ht; cbn [negb orb].
  - apply truthy_str_spec in Ht. case_bool_decide as Hin.
    + intros Hc. case_decide; [tauto|]. by apply IH.
    + destruct (entry_of_item i (doi_of i)) as [r|] eqn:Hr; cbn; [|done].
      destruct (collect ex rest) as [rs|]; cbn; [|done].
      intros [= <-]. case_decide; [|tauto].
      cbn. f_equal; [by eapply entry_of_item_DOI | by apply IH].
  - intros Hc. case_decide as Hd; [|by apply IH].
    destruct Hd as [Hne _]. apply truthy_str_spec in Hne. congruence.
Qed.

(** Once the kept identifiers are recorded too, the same page yields
    nothing. *)
Lemma collect_again ex ex' items es :
  (∀ d, d ∈ ex → d ∈ ex') →
  (∀ r, r ∈ es → Some (DOI r) ∈ ex') →
  collect ex items = Ok es →
  collect ex' items = Ok [].
Proof.
  intros Hsub. revert es. induction items as [|i rest IH]; intros es Hes.
  { done. }
  cbn [collect]. fold (doi_of i).
  destruct (truthy_str (doi_of i)) eqn:Ht; cbn [negb orb].
  - case_bool_decide as Hin.
    + rewrite bool_decide_eq_true_2 by auto. by apply IH.
    + destruct (entry_of_item i (doi_of i)) as [r|] eqn:Hr; cbn; [|done].
      destruct (collect ex rest) as [rs|] eqn:Hrs; cbn; [|done].
      intros [= <-].
      rewrite bool_decide_eq_true_2.
      * apply (IH rs); [|done]. intros r' Hr'. apply Hes. by right.
      * rewrite <- (entry_of_item_DOI _ _ _ Hr). apply Hes. left.
  - by apply IH.
Qed.

Lemma row_of_ids (es : list entry) :
  (fun r => r !! 2%nat) <$> (row_of <$> es) = (fun r => Some (DOI r)) <$> es.
Proof. rewrite <- list_fmap_compose. done. Qed.

Lemma row_of_nonblank (es : list entry) :
  Forall (fun r => r ≠ []) (row_of <$> es).
Proof. apply Forall_fmap, Forall_forall. done. Qed.

(** What the store holds after [main], for a store with the script's
    header. *)
Lemma scraper_main_fs o w :
  store_ok fieldnames (fs w) →
  fs (main o w).1
  = match collect (list_to_set (identifiers (fs w))) (page o) with
    | Ok (r :: rs) => append_to_csv (r :: rs) (fs w)
    | _ => fs w
    end.
Proof.
  intros Hok. unfold main, get_crossref_data, load_existing_dois, page.
  destruct (get_json o) as [data|x]; [|done].
  rewrite fs_emit, (column_store_ok _ _ getitem_DOI _ Hok). cbn.
  destruct (collect _ (items_of data)) as [[|r rs]|]; done.
Qed.

Lemma scraper_main_store_ok o w :
  store_ok fieldnames (fs w) → store_ok fieldnames (fs (main o w).1).
Proof.
  intros Hok. rewrite scraper_main_fs by done.
  destruct (collect _ (page o)) as [[|r rs]|]; try done.
  by apply store_ok_append.
Qed.

Lemma scraper_main_twice o w :
  store_ok fieldnames (fs w) →
  fs (main o (main o w).1).1 = fs (main o w).1.
Proof.
  intros Hok.
  rewrite (scraper_main_fs o (main o w).1) by by apply scraper_main_store_ok.
  pose proof (scraper_main_fs o w Hok) as Hfs.
  destruct (collect (list_to_set (identifiers (fs w))) (page o))
    as [[|r rs]|x] eqn:Hc; rewrite Hfs.
  - by rewrite Hc.
  - unfold append_to_csv.
    rewrite (identifiers_append fieldnames) by auto using row_of_nonblank.
    rewrite row_of_ids.
    erewrite collect_again; [done| | |exact Hc].
    + intros d. rewrite !elem_of_list_to_set, elem_of_app. by left.
    + intros r' Hr'. rewrite elem_of_list_to_set, elem_of_app. right.
      by apply (list_elem_of_fmap_2 (fun r => Some (DOI r))).
  - by rewrite Hc.
Qed.

End ScraperRun.

(** * Text *)

Lemma string_app_cons (c : ascii) (a b : string) :
  String c a +:+ b = String c (a +:+ b).
Proof. reflexivity. Qed.

Lemma string_app_nil_l (s : string) : "" +:+ s = s.
Proof. reflexivity. Qed.

Lemma string_app_nil_r (s : string) : s +:+ "" = s.
Proof.
  induction s as [|c s IH]; [done|]. by rewrite string_app_cons, IH.
Qed.

Lemma string_app_assoc (a b c : string) : (a +:+ b) +:+ c = a +:+ (b +:+ c).
Proof.
  induction a as [|x a IH]; [done|]. by rewrite !string_app_cons, IH.
Qed.

Lemma string_app_length (a b : string) :
  String.length (a +:+ b) = (String.length a + String.length b)%nat.
Proof.
  induction a as [|x a IH]; [done|]. rewrite string_app_cons. cbn.
  by rewrite IH.
Qed.

Lemma string_app_empty (a b : string) : a +:+ b = "" → a = "" ∧ b = "".
Proof. by destruct a. Qed.

Ltac whitespace_cases H :=
  let l := eval vm_compute in py_whitespace in
  change py_whitespace with l in H;
  repeat (apply elem_of_cons in H as [H|H]);
  [..|by apply elem_of_nil in H].

Ltac whitespace_member :=
  apply (bool_decide_unpack _); vm_compute; exact I.

Lemma whitespace_nonempty (w : string) : w ∈ py_whitespace → w ≠ "".
Proof. intros H. whitespace_cases H; by subst. Qed.

(** A whitespace character at the front is recognised. *)
Lemma lstrip_whitespace (w t : string) :
  w ∈ py_whitespace → lstrip (w +:+ t) = lstrip t.
Proof. intros H. whitespace_cases H; by subst. Qed.

Lemma ascii_of_its_nat (c : ascii) (n : nat) :
  nat_of_ascii c = n → c = ascii_of_nat n.
Proof. intros <-. by rewrite ascii_nat_embedding. Qed.

Lemma py_isspace_whitespace (c : ascii) :
  py_isspace c = true → String c "" ∈ py_whitespace.
Proof.
  unfold py_isspace. cbv zeta. intros H.
  destruct (nat_of_ascii c) as [|n] eqn:Hc; [done|].
  do 32 (destruct n as [|n];
         [first [vm_compute in H; discriminate H
                |apply ascii_of_its_nat in Hc; subst c; whitespace_member]|]).
  exfalso. revert H.
  rewrite orb_true_iff, !andb_true_iff, !Nat.leb_le. lia.
Qed.

Lemma py_isspace2_whitespace (c1 c2 : ascii) :
  py_isspace2 c1 c2 = true → String c1 (String c2 "") ∈ py_whitespace.
Proof.
  unfold py_isspace2. cbv zeta.
  rewrite andb_true_iff, orb_true_iff, !Nat.eqb_eq.
  intros [H1 [H2|H2]]; apply ascii_of_its_nat in H1, H2; subst;
    whitespace_member.
Qed.

Lemma py_isspace3_whitespace (c1 c2 c3 : ascii) :
  py_isspace3 c1 c2 c3 = true →
  String c1 (String c2 (String c3 "")) ∈ py_whitespace.
Proof.
  unfold py_isspace3. cbv zeta.
  rewrite !orb_true_iff, !andb_true_iff, !orb_true_iff, !andb_true_iff,
    !Nat.eqb_eq, !Nat.leb_le.
  intros H.
  assert (∃ a b c, nat_of_ascii c1 = a ∧ nat_of_ascii c2 = b
                   ∧ nat_of_ascii c3 = c
                   ∧ (a = 225 ∧ b = 154 ∧ c = 128
                      ∨ a = 226 ∧ b = 128
                        ∧ (c = 128 ∨ c = 129 ∨ c = 130 ∨ c = 131 ∨ c = 132
                           ∨ c = 133 ∨ c = 134 ∨ c = 135 ∨ c = 136 ∨ c = 137
                           ∨ c = 138 ∨ c = 168 ∨ c = 169 ∨ c = 175)
                      ∨ a = 226 ∧ b = 129 ∧ c = 159
                      ∨ a = 227 ∧ b = 128 ∧ c = 128))%nat
    as (a & b & c & Ha & Hb & Hc & Hcases).
  { eexists _, _, _. split_and!; try reflexivity. lia. }
  apply ascii_of_its_nat in Ha, Hb, Hc. subst c1 c2 c3.
  repeat match goal with
         | H : _ ∨ _ |- _ => destruct H as [H|H]
         | H : _ ∧ _ |- _ => destruct H as [? H]
         end; subst; whitespace_member.
Qed.

(** What [lstrip] does with the front of a text. *)
Lemma lstrip_front (s : string) :
  (lstrip s = s ∧ ¬ space_first s)
  ∨ ∃ w t, w ∈ py_whitespace ∧ s = w +:+ t ∧ lstrip s = lstrip t.
Proof.
  destruct s as [|c1 s1].
  { left. split; [done|]. intros (w & t & Hw & Heq).
    symmetry in Heq. apply string_app_empty in Heq as [-> _].
    by apply whitespace_nonempty in Hw. }
  destruct (py_isspace c1) eqn:H1.
  { right. exists (String c1 ""), s1. split_and!.
    - by apply py_isspace_whitespace.
    - done.
    - cbn. by rewrite H1. }
  destruct s1 as [|c2 s2].
  { left. split; [cbn; by rewrite H1|].
    intros (w & t & Hw & Heq). whitespace_cases Hw; subst w;
      injection Heq as -> ?; try done; by vm_compute in H1. }
  destruct (py_isspace2 c1 c2) eqn:H2.
  { right. exists (String c1 (String c2 "")), s2. split_and!.
    - by apply py_isspace2_whitespace.
    - done.
    - cbn. by rewrite H1, H2. }
  destruct s2 as [|c3 s3].
  { left. split; [cbn; by rewrite H1, H2|].
    intros (w & t & Hw & Heq). whitespace_cases Hw; subst w;
      injection Heq as -> ?; try done; try (by vm_compute in H1);
      simplify_eq; by vm_compute in H2. }
  destruct (py_isspace3 c1 c2 c3) eqn:H3.
  { right. exists (String c1 (String c2 (String c3 ""))), s3. split_and!.
    - by apply py_isspace3_whitespace.
    - done.
    - cbn. by rewrite H1, H2, H3. }
  left. split; [cbn; by rewrite H1, H2, H3|].
  intros (w & t & Hw & Heq). whitespace_cases Hw; subst w;
    injection Heq as -> ?; try (by vm_compute in H1);
    simplify_eq; try (by vm_compute in H2); by vm_compute in H3.
Qed.

Lemma lstrip_spec (s : string) :
  ∃ l, spaces l ∧ s = l +:+ lstrip s ∧ ¬ space_first (lstrip s).
Proof.
  remember (String.length s) as n eqn:Hn.
  revert s Hn. induction n as [n IH] using lt_wf_ind. intros s Hn.
  destruct (lstrip_front s) as [[Heq Hno]|(w & t & Hw & -> & Heq)].
  - exists "". rewrite Heq. split_and!; [constructor|done|done].
  - destruct (IH (String.length t)) with (s := t) as (l & Hl & Ht & Hno);
      [|done|].
    { subst n. rewrite string_app_length.
      pose proof (whitespace_nonempty w Hw). destruct w; [done|]. cbn. lia. }
    exists (w +:+ l). rewrite Heq. split_and!; [by constructor| |done].
    by rewrite string_app_assoc, <- Ht.
Qed.

Lemma lstrip_spaces (s : string) : spaces s → lstrip s = "".
Proof.
  induction 1 as [|w l Hw _ IH]; [done|]. by rewrite lstrip_whitespace.
Qed.

Lemma lstrip_empty (s : string) : lstrip s = "" → spaces s.
Proof.
  intros He. destruct (lstrip_spec s) as (l & Hl & Hs & _).
  rewrite He, string_app_nil_r in Hs. by subst.
Qed.

Lemma rstrip_spec (s : string) :
  ∃ r, spaces r ∧ s = rstrip s +:+ r ∧ ¬ space_last (rstrip s).
Proof.
  induction s as [|c s (r & Hr & Hs & Hno)].
  { exists "". split_and!; [constructor|done|].
    intros (w & t & Hw & Heq). symmetry in Heq.
    apply string_app_empty in Heq as [_ ->].
    by apply whitespace_nonempty in Hw. }
  cbn [rstrip]. destruct (String.eqb_spec (lstrip (String c s)) "") as [He|Hne].
  - exists (String c s). split_and!; [by apply lstrip_empty|done|].
    intros (w & t & Hw & Heq). symmetry in Heq.
    apply string_app_empty in Heq as [_ ->].
    by apply whitespace_nonempty in Hw.
  - exists r. split_and!; [done| |].
    + by rewrite string_app_cons, <- Hs.
    + intros (w & t & Hw & Heq). destruct t as [|c' t].
      * rewrite string_app_nil_l in Heq. apply Hne.
        apply lstrip_spaces. rewrite Hs.
        replace (String c (rstrip s +:+ r)) with (w +:+ r)
          by by rewrite <- Heq.
        by constructor.
      * rewrite string_app_cons in Heq. injection Heq as -> Heq.
        apply Hno. by exists w, t.
Qed.

(** [strip] removes a run of whitespace at each end and leaves none. *)
Lemma strip_trimmed (text : string) : trimmed text (strip text).
Proof.
  unfold strip.
  destruct (lstrip_spec text) as (l & Hl & Ht & Hfirst).
  destruct (rstrip_spec (lstrip text)) as (r & Hr & Hu & Hlast).
  exists l, r. split_and!; try done.
  - by rewrite <- Hu.
  - intros (w & t & Hw & Heq). apply Hfirst. exists w, (t +:+ r).
    split; [done|]. by rewrite Hu, Heq, string_app_assoc.
Qed.

(** * JSON objects *)

Lemma assoc_last_snoc {V} (k k' : string) (v' : V) (kvs : list (string * V)) :
  assoc_last k (kvs ++ [(k', v')])
  = if String.eqb k' k then Some v' else assoc_last k kvs.
Proof. unfold assoc_last. by rewrite fold_left_app. Qed.

Lemma assoc_last_None {V} (k : string) (kvs : list (string * V)) :
  assoc_last k kvs = None ↔ k ∉ (fst <$> kvs).
Proof.
  induction kvs as [|[k' v'] kvs IH] using rev_ind.
  { split; [intros _ H; by apply elem_of_nil in H|done]. }
  rewrite assoc_last_snoc, fmap_app, elem_of_app. cbn.
  destruct (String.eqb_spec k' k) as [->|Hne].
  - split; [done|]. intros H. destruct H. right. left.
  - rewrite IH. split.
    + intros Hk [Hin|Hin]; [done|].
      apply list_elem_of_singleton in Hin. congruence.
    + intros Hk Hin. apply Hk. by left.
Qed.

Lemma assoc_last_binds {V} (k : string) (v : V) (kvs : list (string * V)) :
  assoc_last k kvs = Some v ↔ binds kvs k v.
Proof.
  induction kvs as [|[k' v'] kvs IH] using rev_ind.
  { split; [done|]. intros (before & after & Heq & _). by destruct before. }
  rewrite assoc_last_snoc. destruct (String.eqb_spec k' k) as [->|Hne].
  - split.
    + intros [= ->]. exists kvs, []. split; [done|]. by intros H%elem_of_nil.
    + intros (before & after & Heq & Hnot).
      destruct after as [|kv after _] using rev_ind.
      * apply app_inj_tail in Heq as [_ Heq]. by simplify_eq.
      * rewrite app_comm_cons, app_assoc in Heq.
        apply app_inj_tail in Heq as [_ <-]. destruct Hnot.
        rewrite fmap_app, elem_of_app. right. left.
  - rewrite IH. split.
    + intros (before & after & -> & Hnot).
      exists before, (after ++ [(k', v')]). split; [by rewrite <- app_assoc|].
      rewrite fmap_app, elem_of_app. intros [Hin|Hin]; [done|].
      apply list_elem_of_singleton in Hin. cbn in Hin. congruence.
    + intros (before & after & Heq & Hnot).
      destruct after as [|kv after _] using rev_ind.
      * apply app_inj_tail in Heq as [_ Heq]. simplify_eq.
      * rewrite app_comm_cons, app_assoc in Heq.
        apply app_inj_tail in Heq as [-> <-].
        exists before, after. split; [done|].
        intros Hin. apply Hnot. rewrite fmap_app, elem_of_app. by left.
Qed.


(** * The file as bytes: lines *)

Lemma is_newline_cases (c : ascii) :
  is_newline c = true ↔ c = LF ∨ c = CR.
Proof.
  unfold is_newline. rewrite orb_true_iff, !Ascii.eqb_eq. done.
Qed.

Lemma is_newline_false (c : ascii) :
  is_newline c = false → Ascii.eqb c LF = false ∧ Ascii.eqb c CR = false.
Proof. unfold is_newline. by intros [? ?]%orb_false_iff. Qed.

Lemma readlines_one_line (eof : bool) (x l s : string) :
  one_line x = true →
  readlines eof l (x +:+ s) = readlines eof (l +:+ x) s.
Proof.
  revert l. induction x as [|c x IH]; intros l Hx.
  - by rewrite string_app_nil_l, string_app_nil_r.
  - cbn in Hx. apply andb_true_iff in Hx as [Hc Hx].
    apply negb_true_iff, is_newline_false in Hc as [H1 H2].
    rewrite string_app_cons. cbn [readlines]. rewrite H1, H2.
    rewrite IH by done. f_equal.
    by rewrite string_app_assoc.
Qed.

(** The first line of a text that is not empty starts with what was seen of
    it. *)
Lemma readlines_first (s : string) :
  s ≠ EmptyString →
  ∃ l1 rest, ∀ l, readlines true l s = (l +:+ l1) :: rest.
Proof.
  induction s as [|c s IH]; [done|]. intros _.
  destruct (Ascii.eqb c LF) eqn:H1.
  { eexists _, _. intros l. cbn [readlines]. rewrite H1. reflexivity. }
  destruct (Ascii.eqb c CR) eqn:H2.
  { destruct s as [|c' s'].
    - eexists _, _. intros l. cbn [readlines]. rewrite H1, H2. reflexivity.
    - destruct (Ascii.eqb c' LF) eqn:H3.
      + eexists _, _. intros l. cbn [readlines]. rewrite H1, H2, H3.
        reflexivity.
      + eexists _, _. intros l. cbn [readlines]. rewrite H1, H2, H3.
        reflexivity. }
  destruct s as [|c' s'].
  - exists (String c EmptyString), []. intros l. cbn [readlines].
    rewrite H1, H2. cbn [andb].
    destruct (String.eqb_spec (l +:+ String c EmptyString) EmptyString)
      as [Heq|_]; [|done].
    apply string_app_empty in Heq as [_ ?]. done.
  - destruct IH as (l1 & rest & IH); [done|].
    exists (String c l1), rest. intros l.
    change (readlines true l (String c (String c' s')))
      with (if Ascii.eqb c LF
            then (l +:+ String LF EmptyString)
                   :: readlines true EmptyString (String c' s')
            else if Ascii.eqb c CR
            then (if Ascii.eqb c' LF
                  then (l +:+ String CR (String LF EmptyString))
                         :: readlines true EmptyString s'
                  else (l +:+ String CR EmptyString)
                         :: readlines true EmptyString (String c' s'))
            else readlines true (l +:+ String c EmptyString) (String c' s')).
    rewrite H1, H2, IH. f_equal.
    by rewrite string_app_assoc.
Qed.

(** * The file as bytes: the reader *)

Lemma parse_chars_app (a b : string) (p : parser) :
  parse_chars (a +:+ b) p = (q ← parse_chars a p; parse_chars b q).
Proof.
  revert p. induction a as [|c a IH]; intros p; [done|].
  rewrite string_app_cons. cbn [parse_chars].
  destruct (parse_process_char c p) as [p'|x]; cbn; [apply IH|done].
Qed.

Lemma read_records_cons (line : string) (rest : list string) (p : parser) :
  read_records p (line :: rest)
  = and_then (parse_chars line p) (fun q =>
      if bool_decide (state (parse_process_eol q) = START_RECORD)
      then (fields (parse_process_eol q) :: (read_records parse_reset rest).1,
            (read_records parse_reset rest).2)
      else read_records (parse_process_eol q) rest).
Proof.
  cbn [read_records]. unfold parse_line.
  by destruct (parse_chars line p) as [q|x].
Qed.

(** Characters without a line break that are followed by more text are
    parsed as part of the line that text starts with. *)
Lemma read_one_line (x s : string) (p : parser) :
  one_line x = true → s ≠ EmptyString →
  read_records p (readlines true EmptyString (x +:+ s))
  = and_then (parse_chars x p)
      (fun q => read_records q (readlines true EmptyString s)).
Proof.
  intros Hx Hs. rewrite readlines_one_line by done. rewrite string_app_nil_l.
  destruct (readlines_first s Hs) as (l1 & rest & Hl).
  rewrite (Hl x), (Hl EmptyString), string_app_nil_l.
  rewrite read_records_cons, parse_chars_app.
  destruct (parse_chars x p) as [q|e]; [|done].
  cbn [and_then]. by rewrite read_records_cons.
Qed.

Lemma read_records_app (la lb : list string) (p : parser) :
  read_records p (la ++ lb)
  = match (read_records p la).2 with
    | Ok q => ((read_records p la).1 ++ (read_records q lb).1,
               (read_records q lb).2)
    | Raise x => read_records p la
    end.
Proof.
  revert p. induction la as [|l la IH]; intros p.
  { cbn. by destruct (read_records p lb). }
  rewrite <- app_comm_cons. cbn [read_records].
  destruct (parse_line l p) as [p'|x]; [|done].
  case_bool_decide.
  - rewrite IH.
    by destruct (read_records parse_reset la) as [ra [qa|xa]].
  - apply IH.
Qed.


(** ** Line breaks *)

Lemma readlines_unfold (eof : bool) (l : string) (c : ascii) (s : string) :
  readlines eof l (String c s)
  = if Ascii.eqb c LF
    then (l +:+ String LF EmptyString) :: readlines eof EmptyString s
    else if Ascii.eqb c CR
    then match s with
         | String c' s' =>
             if Ascii.eqb c' LF
             then (l +:+ String CR (String LF EmptyString))
                    :: readlines eof EmptyString s'
             else (l +:+ String CR EmptyString) :: readlines eof EmptyString s
         | EmptyString => [l +:+ String CR EmptyString]
         end
    else readlines eof (l +:+ String c EmptyString) s.
Proof. by destruct s. Qed.

Lemma readlines_app_length (n : nat) (a t l : string) :
  (String.length a ≤ n)%nat →
  a ≠ EmptyString → ends_line a = true → no_LF_first t →
  readlines true l (a +:+ t)
  = readlines true l a ++ readlines true EmptyString t.
Proof.
  revert a l. induction n as [|n IH]; intros a l Hn Hne Ha Ht.
  { destruct a; [done|cbn in Hn; lia]. }
  destruct a as [|c a]; [done|]. cbn in Hn.
  rewrite string_app_cons, !readlines_unfold.
  destruct a as [|c' a'].
  { cbn in Ha. rewrite string_app_nil_l.
    apply is_newline_cases in Ha as [->| ->].
    - done.
    - change (Ascii.eqb CR LF) with false. change (Ascii.eqb CR CR) with true.
      cbn iota.
      destruct t as [|c' t']; [done|]. cbn in Ht.
      by destruct (Ascii.eqb_spec c' LF) as [->|_]. }
  assert (ends_line (String c' a') = true) as Ha' by done.
  assert (String.length (String c' a') ≤ n)%nat as Hn' by lia.
  destruct (Ascii.eqb c LF).
  { by rewrite (IH (String c' a')). }
  destruct (Ascii.eqb c CR).
  2:{ by rewrite (IH (String c' a')). }
  rewrite string_app_cons.
  destruct (Ascii.eqb c' LF).
  2:{ rewrite <- string_app_cons. by rewrite (IH (String c' a')). }
  destruct a' as [|c'' a''].
  { done. }
  rewrite (IH (String c'' a'')); [done| |done| |done].
  - cbn in Hn'. cbn. lia.
  - done.
Qed.

(** Text put after a file that ends with a line break starts a line of its
    own. *)
Lemma readlines_app (a t : string) :
  ends_line a = true → no_LF_first t →
  readlines true EmptyString (a +:+ t)
  = readlines true EmptyString a ++ readlines true EmptyString t.
Proof.
  intros Ha Ht. destruct a as [|c a]; [done|].
  by apply (readlines_app_length (String.length (String c a))).
Qed.

(** ** Characters added to the field *)

Lemma code_points_app (a b : string) :
  code_points (a +:+ b) = (code_points a + code_points b)%N.
Proof.
  induction a as [|c a IH]; [done|].
  rewrite string_app_cons. cbn [code_points]. rewrite IH. lia.
Qed.

Lemma parser_eq (p q : parser) :
  state p = state q → field p = field q → field_len p = field_len q →
  fields p = fields q → p = q.
Proof. destruct p, q. cbn. by intros -> -> -> ->. Qed.

Lemma extend_nil (st : parser_state) (p : parser) :
  extend st EmptyString p = set_state st p.
Proof.
  apply parser_eq; cbn; [done| |(unfold field_limit in *; lia)|done]. apply string_app_nil_r.
Qed.

Lemma extend_extend (st st' : parser_state) (a b : string) (p : parser) :
  extend st' b (extend st a p) = extend st' (a +:+ b) p.
Proof.
  apply parser_eq; cbn; [done| | |done].
  - apply string_app_assoc.
  - rewrite code_points_app. (unfold field_limit in *; lia).
Qed.

Lemma add_text_nil (st : parser_state) (p : parser) :
  (field_len p <= field_limit)%N →
  add_text st EmptyString p = Ok (set_state st p).
Proof.
  intros Hp. unfold add_text. cbn [code_points].
  destruct (N.leb_spec (field_len p + 0) field_limit); [|(unfold field_limit in *; lia)].
  by rewrite extend_nil.
Qed.

Lemma add_text_limit (st : parser_state) (f : string) (p q : parser) :
  add_text st f p = Ok q → (field_len q <= field_limit)%N.
Proof.
  unfold add_text.
  destruct (N.leb_spec (field_len p + code_points f) field_limit);
    [|done].
  by intros [= <-].
Qed.

Lemma add_text_state (st : parser_state) (f : string) (p q : parser) :
  add_text st f p = Ok q → state q = st.
Proof.
  unfold add_text.
  destruct (N.leb_spec (field_len p + code_points f) field_limit);
    [|done].
  by intros [= <-].
Qed.

(** Adding [a] and then [b] is adding [a +:+ b]. *)
Lemma add_text_app (st st' : parser_state) (a b : string) (p : parser) :
  add_text st' (a +:+ b) p
  = match add_text st a p with
    | Ok q => add_text st' b q
    | Raise x => Raise x
    end.
Proof.
  unfold add_text. rewrite code_points_app.
  destruct (N.leb_spec (field_len p + code_points a) field_limit) as [Ha|Ha].
  - cbn [extend field_len].
    destruct (N.leb_spec (field_len p + code_points a + code_points b)
                field_limit) as [Hb|Hb];
    destruct (N.leb_spec (field_len p + (code_points a + code_points b))
                field_limit) as [Hc|Hc]; try lia.
    + by rewrite extend_extend.
    + done.
  - destruct (N.leb_spec (field_len p + (code_points a + code_points b))
                field_limit) as [Hc|Hc]; [lia|done].
Qed.

Lemma parse_add_char_text (st : parser_state) (c : ascii) (p : parser) :
  (field_len p <= field_limit)%N →
  parse_add_char st c p = add_text st (String c EmptyString) p.
Proof.
  intros Hp. unfold parse_add_char, add_text, extend. cbn [code_points].
  destruct (continuation c).
  - destruct (N.leb_spec (field_len p + (0 + 0)) field_limit); [|(unfold field_limit in *; lia)].
    repeat f_equal; lia.
  - destruct (N.leb_spec field_limit (field_len p));
    destruct (N.leb_spec (field_len p + (1 + 0)) field_limit); try (unfold field_limit in *; lia).
    + done.
    + repeat f_equal; lia.
Qed.

(** ** A field written without quotes *)

Lemma needs_quotes_cons (c : ascii) (s : string) :
  needs_quotes (String c s) = false →
  Ascii.eqb c delimiter = false ∧ Ascii.eqb c quotechar = false
  ∧ is_newline c = false ∧ needs_quotes s = false.
Proof.
  cbn [needs_quotes]. intros H.
  apply orb_false_iff in H as [H ?]. apply orb_false_iff in H as [H ?].
  by apply orb_false_iff in H as [? ?].
Qed.

Lemma needs_quotes_one_line (s : string) :
  needs_quotes s = false → one_line s = true.
Proof.
  induction s as [|c s IH]; [done|].
  intros (_ & _ & Hc & Hs)%needs_quotes_cons. cbn. by rewrite Hc, IH.
Qed.

Lemma parse_chars_in_field (f : string) (p : parser) :
  state p = IN_FIELD → (field_len p <= field_limit)%N →
  needs_quotes f = false →
  parse_chars f p = add_text IN_FIELD f p.
Proof.
  revert p. induction f as [|c f IH]; intros p Hst Hp Hf.
  { rewrite add_text_nil by done. cbn. f_equal.
    apply parser_eq; by cbn. }
  apply needs_quotes_cons in Hf as (Hd & Hq & Hn & Hf).
  cbn [parse_chars]. unfold parse_process_char. rewrite Hst, Hn, Hd.
  rewrite parse_add_char_text by done.
  change (String c f) with (String c EmptyString +:+ f).
  rewrite (add_text_app IN_FIELD).
  destruct (add_text IN_FIELD (String c EmptyString) p) as [q|x] eqn:Hq';
    [|done].
  cbn. apply IH; [|by eapply add_text_limit|done].
  by eapply add_text_state.
Qed.

Lemma parse_chars_unquoted (f : string) (p : parser) :
  at_field_start p → f ≠ EmptyString → needs_quotes f = false →
  parse_chars f p = add_text IN_FIELD f p.
Proof.
  intros (Hst & Hfield & Hlen) Hne Hf. destruct f as [|c f]; [done|].
  apply needs_quotes_cons in Hf as (Hd & Hq & Hn & Hf).
  assert (field_len p <= field_limit)%N as Hp by (rewrite Hlen; done).
  assert (parse_process_char c p = add_text IN_FIELD (String c EmptyString) p)
    as Hc.
  { unfold parse_process_char, start_field.
    destruct Hst as [-> | ->]; rewrite Hn, Hq, Hd;
      by apply parse_add_char_text. }
  cbn [parse_chars]. rewrite Hc.
  change (String c f) with (String c EmptyString +:+ f).
  rewrite (add_text_app IN_FIELD).
  destruct (add_text IN_FIELD (String c EmptyString) p) as [q|x] eqn:Hq';
    [|done].
  cbn. apply parse_chars_in_field; [|by eapply add_text_limit|done].
  by eapply add_text_state.
Qed.

(** ** A field written in quotes *)

Lemma double_quotes_first (f s : string) :
  no_LF_first f → no_LF_first (double_quotes f +:+ String quotechar s).
Proof.
  destruct f as [|c f]; [done|]. cbn [double_quotes no_LF_first].
  intros Hc. by destruct (Ascii.eqb_spec c quotechar) as [->|_].
Qed.

Lemma in_quotes_add (c : ascii) (p : parser) :
  state p = IN_QUOTED_FIELD → (field_len p <= field_limit)%N →
  Ascii.eqb c quotechar = false →
  parse_process_char c p = add_text IN_QUOTED_FIELD (String c EmptyString) p.
Proof.
  intros Hst Hp Hc. unfold parse_process_char. rewrite Hst, Hc.
  by apply parse_add_char_text.
Qed.

Lemma in_quotes_quote (p : parser) :
  state p = IN_QUOTED_FIELD →
  parse_process_char quotechar p = Ok (set_state QUOTE_IN_QUOTED_FIELD p).
Proof. intros Hst. unfold parse_process_char. by rewrite Hst. Qed.

Lemma after_quote_quote (p : parser) :
  state p = IN_QUOTED_FIELD → (field_len p <= field_limit)%N →
  parse_process_char quotechar (set_state QUOTE_IN_QUOTED_FIELD p)
  = add_text IN_QUOTED_FIELD (String quotechar EmptyString) p.
Proof.
  intros Hst Hp. unfold parse_process_char. cbn [state set_state].
  change (Ascii.eqb quotechar quotechar) with true. cbn iota.
  by rewrite parse_add_char_text.
Qed.

(** A line that ends inside quotes leaves the record open. *)
Lemma read_records_in_quotes (line : string) (rest : list string)
    (p q : parser) :
  parse_chars line p = Ok q → state q = IN_QUOTED_FIELD →
  read_records p (line :: rest) = read_records q rest.
Proof.
  intros Hline Hq. rewrite read_records_cons, Hline. cbn [and_then].
  assert (parse_process_eol q = q) as -> by (unfold parse_process_eol; by rewrite Hq).
  rewrite Hq. done.
Qed.

(** The text of a quoted field, up to and with the closing quote. *)
Lemma read_quoted_length (n : nat) (f s : string) (p : parser) :
  (String.length f ≤ n)%nat →
  state p = IN_QUOTED_FIELD → (field_len p <= field_limit)%N →
  s ≠ EmptyString →
  read_records p
    (readlines true EmptyString (double_quotes f +:+ String quotechar s))
  = and_then (add_text QUOTE_IN_QUOTED_FIELD f p)
      (fun q => read_records q (readlines true EmptyString s)).
Proof.
  revert f p. induction n as [|n IH]; intros f p Hn Hst Hp Hs.
  { destruct f; [|cbn in Hn; lia].
    cbn [double_quotes]. rewrite string_app_nil_l.
    change (String quotechar s) with (String quotechar EmptyString +:+ s).
    rewrite read_one_line by done.
    cbn [parse_chars]. rewrite in_quotes_quote by done.
    cbn [mbind result_bind and_then].
    by rewrite add_text_nil. }
  destruct f as [|c f].
  { apply (IH EmptyString); [cbn; lia|done..]. }
  cbn in Hn. cbn [double_quotes].
  destruct (Ascii.eqb_spec c quotechar) as [->|Hq].
  { (* a quote, written twice *)
    change (String quotechar (String quotechar (double_quotes f))
            +:+ String quotechar s)
      with (String quotechar (String quotechar EmptyString)
            +:+ (double_quotes f +:+ String quotechar s)).
    rewrite read_one_line; [|done|by destruct (double_quotes f)].
    cbn [parse_chars]. rewrite in_quotes_quote by done.
    cbn [mbind result_bind]. rewrite after_quote_quote by done.
    change (String quotechar f) with (String quotechar EmptyString +:+ f).
    rewrite (add_text_app IN_QUOTED_FIELD QUOTE_IN_QUOTED_FIELD).
    destruct (add_text IN_QUOTED_FIELD (String quotechar EmptyString) p)
      as [q|x] eqn:Hadd; [|done].
    cbn [and_then mbind result_bind parse_chars].
    apply IH; [lia|by eapply add_text_state|by eapply add_text_limit|done]. }
  apply Ascii.eqb_neq in Hq.
  pose proof (in_quotes_add c p Hst Hp Hq) as Hc.
  change (String c f) with (String c EmptyString +:+ f).
  rewrite (add_text_app IN_QUOTED_FIELD QUOTE_IN_QUOTED_FIELD).
  rewrite string_app_cons.
  destruct (Ascii.eqb_spec c LF) as [->|HLF].
  { (* a line feed *)
    rewrite readlines_unfold. change (Ascii.eqb LF LF) with true.
    cbn iota. rewrite string_app_nil_l.
    destruct (add_text IN_QUOTED_FIELD (String LF EmptyString) p)
      as [q|x] eqn:Hadd.
    - rewrite (read_records_in_quotes _ _ p q).
      + apply IH; [lia|by eapply add_text_state|by eapply add_text_limit|done].
      + cbn [parse_chars]. by rewrite Hc.
      + by eapply add_text_state.
    - rewrite read_records_cons. cbn [parse_chars]. by rewrite Hc. }
  destruct (Ascii.eqb_spec c CR) as [->|HCR].
  { (* a carriage return *)
    rewrite readlines_unfold. change (Ascii.eqb CR LF) with false.
    change (Ascii.eqb CR CR) with true. cbn iota.
    rewrite !string_app_nil_l.
    destruct (add_text IN_QUOTED_FIELD (String CR EmptyString) p)
      as [q|x] eqn:Hadd.
    2:{ destruct (double_quotes f +:+ String quotechar s) as [|c' s'];
          [|destruct (Ascii.eqb c' LF)];
          rewrite read_records_cons; cbn [parse_chars]; by rewrite Hc. }
    pose proof (add_text_state _ _ _ _ Hadd) as Hqst.
    pose proof (add_text_limit _ _ _ _ Hadd) as Hqlen.
    destruct f as [|c' f'].
    { cbn [double_quotes]. rewrite string_app_nil_l.
      change (Ascii.eqb quotechar LF) with false. cbn iota.
      rewrite (read_records_in_quotes _ _ p q).
      - apply (IH EmptyString); [cbn; lia|done..].
      - cbn [parse_chars]. by rewrite Hc.
      - done. }
    destruct (Ascii.eqb_spec c' LF) as [->|HLF'].
    { (* followed by a line feed *)
      cbn [double_quotes]. change (Ascii.eqb LF quotechar) with false.
      cbn iota. rewrite string_app_cons.
      change (Ascii.eqb LF LF) with true. cbn iota.
      pose proof (in_quotes_add LF q Hqst Hqlen eq_refl) as Hc'.
      change (String LF f') with (String LF EmptyString +:+ f').
      rewrite (add_text_app IN_QUOTED_FIELD QUOTE_IN_QUOTED_FIELD).
      destruct (add_text IN_QUOTED_FIELD (String LF EmptyString) q)
        as [q'|x] eqn:Hadd'.
      - rewrite (read_records_in_quotes _ _ p q').
        + apply IH; [cbn in Hn; lia|by eapply add_text_state
                    |by eapply add_text_limit|done].
        + cbn [parse_chars]. rewrite Hc. cbn [mbind result_bind].
          by rewrite Hc'.
        + by eapply add_text_state.
      - rewrite read_records_cons. cbn [parse_chars]. rewrite Hc.
        cbn [mbind result_bind]. by rewrite Hc'. }
    assert (no_LF_first (double_quotes (String c' f') +:+ String quotechar s))
      as Hfirst by (by apply double_quotes_first).
    destruct (double_quotes (String c' f') +:+ String quotechar s)
      as [|c'' s''] eqn:Htext.
    { by destruct (double_quotes (String c' f')). }
    cbn in Hfirst. apply Ascii.eqb_neq in Hfirst. rewrite Hfirst.
    rewrite (read_records_in_quotes _ _ p q).
    - rewrite <- Htext.
      apply IH; [lia|done..].
    - cbn [parse_chars]. by rewrite Hc.
    - done. }
  (* any other character *)
  rewrite <- string_app_cons.
  change (String c (double_quotes f))
    with (String c EmptyString +:+ double_quotes f).
  rewrite string_app_assoc.
  rewrite read_one_line.
  2:{ cbn. unfold is_newline. apply Ascii.eqb_neq in HLF, HCR.
      by rewrite HLF, HCR. }
  2:{ by destruct (double_quotes f). }
  cbn [parse_chars]. rewrite Hc.
  destruct (add_text IN_QUOTED_FIELD (String c EmptyString) p)
    as [q|x] eqn:Hadd; [|done].
  cbn [mbind result_bind and_then].
  apply IH; [lia|by eapply add_text_state|by eapply add_text_limit|done].
Qed.

Lemma read_quoted (f s : string) (p : parser) :
  state p = IN_QUOTED_FIELD → (field_len p <= field_limit)%N →
  s ≠ EmptyString →
  read_records p
    (readlines true EmptyString (double_quotes f +:+ String quotechar s))
  = and_then (add_text QUOTE_IN_QUOTED_FIELD f p)
      (fun q => read_records q (readlines true EmptyString s)).
Proof. by apply (read_quoted_length (String.length f)). Qed.

(** ** A row *)

Lemma start_quote (p : parser) :
  at_field_start p →
  parse_process_char quotechar p = Ok (set_state IN_QUOTED_FIELD p).
Proof.
  intros ([Hst|Hst] & _ & _); unfold parse_process_char, start_field;
    by rewrite Hst.
Qed.

Lemma delimiter_saves (p : parser) :
  state p ≠ IN_QUOTED_FIELD → state p ≠ EAT_CRNL →
  parse_process_char delimiter p = Ok (parse_save_field START_FIELD p).
Proof.
  intros H1 H2. unfold parse_process_char, start_field.
  by destruct (state p).
Qed.

Lemma CR_saves (p : parser) :
  state p = START_FIELD ∨ state p = IN_FIELD
  ∨ state p = QUOTE_IN_QUOTED_FIELD →
  parse_process_char CR p = Ok (parse_save_field EAT_CRNL p).
Proof.
  unfold parse_process_char, start_field.
  by intros [-> | [-> | ->]].
Qed.

(** The line terminator ends the record. *)
Lemma read_terminator (s : string) (p : parser) :
  state p = START_FIELD ∨ state p = IN_FIELD
  ∨ state p = QUOTE_IN_QUOTED_FIELD →
  read_records p (readlines true EmptyString (String CR (String LF s)))
  = ((fields p ++ [field p])
       :: (read_records parse_reset (readlines true EmptyString s)).1,
     (read_records parse_reset (readlines true EmptyString s)).2).
Proof.
  intros Hst. rewrite readlines_unfold.
  change (Ascii.eqb CR LF) with false. change (Ascii.eqb CR CR) with true.
  change (Ascii.eqb LF LF) with true. cbn iota.
  rewrite string_app_nil_l, read_records_cons.
  assert (parse_chars (String CR (String LF EmptyString)) p
          = Ok (parse_save_field EAT_CRNL p)) as ->.
  { cbn [parse_chars]. by rewrite CR_saves. }
  done.
Qed.

Lemma write_field_quoted (f s : string) :
  write_field true f +:+ s
  = String quotechar EmptyString
    +:+ (double_quotes f +:+ String quotechar s).
Proof.
  unfold write_field. rewrite !string_app_cons, string_app_nil_l.
  by rewrite string_app_assoc.
Qed.

Lemma read_field_delimiter (quoted : bool) (f s : string) (p : parser) :
  at_field_start p → (quoted = false → needs_quotes f = false) →
  s ≠ EmptyString →
  read_records p
    (readlines true EmptyString
       (write_field quoted f +:+ String delimiter s))
  = if (code_points f <=? field_limit)%N
    then read_records (next_field (fields p ++ [f]))
           (readlines true EmptyString s)
    else ([], Raise csv_Error).
Proof.
  intros Hp Hq Hs.
  pose proof Hp as (Hst & Hfield & Hlen).
  change (String delimiter s) with (String delimiter EmptyString +:+ s).
  destruct quoted.
  - rewrite write_field_quoted.
    rewrite read_one_line; [|done|by destruct (double_quotes f)].
    cbn [parse_chars]. rewrite start_quote by done.
    cbn [mbind result_bind and_then].
    rewrite read_quoted; [|done|cbn; rewrite Hlen; done|done].
    unfold add_text. cbn [field_len set_state]. rewrite Hlen, N.add_0_l.
    destruct (code_points f <=? field_limit)%N; [|done].
    cbn [and_then]. rewrite read_one_line by done.
    cbn [parse_chars]. rewrite delimiter_saves by done.
    cbn [mbind result_bind and_then]. do 2 f_equal.
    apply parser_eq; cbn; [done..|]. by rewrite Hfield.
  - specialize (Hq eq_refl). cbn [write_field].
    destruct f as [|c f].
    + rewrite string_app_nil_l, read_one_line by done.
      cbn [parse_chars]. rewrite delimiter_saves.
      2,3: by destruct Hst as [-> | ->].
      cbn [mbind result_bind and_then code_points].
      change (0 <=? field_limit)%N with true. cbn iota. do 2 f_equal.
      apply parser_eq; cbn; [done..|]. by rewrite Hfield.
    + rewrite read_one_line;
        [|by apply needs_quotes_one_line|done].
      rewrite parse_chars_unquoted by done.
      unfold add_text. rewrite Hlen, N.add_0_l.
      destruct (code_points (String c f) <=? field_limit)%N; [|done].
      cbn [and_then]. rewrite read_one_line by done.
      cbn [parse_chars]. rewrite delimiter_saves by done.
      cbn [mbind result_bind and_then]. do 2 f_equal.
      apply parser_eq; cbn; [done..|]. by rewrite Hfield.
Qed.

Lemma read_field_end (quoted : bool) (f s : string) (p : parser) :
  at_field_start p → (quoted = false → needs_quotes f = false) →
  (state p = START_RECORD → write_field quoted f ≠ EmptyString) →
  read_records p
    (readlines true EmptyString
       (write_field quoted f +:+ String CR (String LF s)))
  = if (code_points f <=? field_limit)%N
    then ((fields p ++ [f])
            :: (read_records parse_reset (readlines true EmptyString s)).1,
          (read_records parse_reset (readlines true EmptyString s)).2)
    else ([], Raise csv_Error).
Proof.
  intros Hp Hq Hfirst.
  pose proof Hp as (Hst & Hfield & Hlen).
  destruct quoted.
  - rewrite write_field_quoted.
    rewrite read_one_line; [|done|by destruct (double_quotes f)].
    cbn [parse_chars]. rewrite start_quote by done.
    cbn [mbind result_bind and_then].
    rewrite read_quoted; [|done|cbn; rewrite Hlen; done|done].
    unfold add_text. cbn [field_len set_state]. rewrite Hlen, N.add_0_l.
    destruct (code_points f <=? field_limit)%N; [|done].
    cbn [and_then]. rewrite read_terminator by (right; by right).
    cbn [extend fields field set_state]. by rewrite Hfield.
  - specialize (Hq eq_refl). cbn [write_field] in *.
    destruct f as [|c f].
    + rewrite string_app_nil_l.
      destruct Hst as [Hst|Hst]; [by destruct (Hfirst Hst)|].
      rewrite read_terminator by (by left).
      by rewrite Hfield.
    + rewrite read_one_line;
        [|by apply needs_quotes_one_line|done].
      rewrite parse_chars_unquoted by done.
      unfold add_text. rewrite Hlen, N.add_0_l.
      destruct (code_points (String c f) <=? field_limit)%N; [|done].
      cbn [and_then]. rewrite read_terminator by (right; by left).
      cbn [extend fields field]. by rewrite Hfield.
Qed.

Lemma fits_cons (f : string) (fs : list string) :
  fits (f :: fs) = (code_points f <=? field_limit)%N && fits fs.
Proof. done. Qed.

Lemma read_row_tail (fs : list string) (quoted : bool) (f s : string)
    (p : parser) :
  at_field_start p → (quoted = false → needs_quotes f = false) →
  (state p = START_RECORD → fs = [] → write_field quoted f ≠ EmptyString) →
  read_records p
    (readlines true EmptyString (write_field quoted f +:+ row_tail fs +:+ s))
  = if fits (f :: fs)
    then ((fields p ++ f :: fs)
            :: (read_records parse_reset (readlines true EmptyString s)).1,
          (read_records parse_reset (readlines true EmptyString s)).2)
    else ([], Raise csv_Error).
Proof.
  revert quoted f p. induction fs as [|g fs IH]; intros quoted f p Hp Hq Hfirst.
  { cbn [row_tail]. rewrite !string_app_cons, string_app_nil_l.
    rewrite read_field_end by auto.
    rewrite fits_cons. cbn [fits forallb]. by rewrite andb_true_r. }
  cbn [row_tail]. rewrite string_app_cons, string_app_assoc.
  rewrite read_field_delimiter; [|done|done|].
  2:{ intros [_ Hs]%string_app_empty. by destruct fs. }
  rewrite fits_cons.
  destruct (code_points f <=? field_limit)%N; [|done].
  cbn [andb]. rewrite (IH (needs_quotes g) g).
  - cbn [next_field fields]. by rewrite <- app_assoc.
  - split; [by right|done].
  - done.
  - done.
Qed.

Lemma join_row_tail (f : string) (fs : list string) :
  join (String delimiter EmptyString)
    ((fun s => write_field (needs_quotes s) s) <$> f :: fs)
  +:+ String CR (String LF EmptyString)
  = write_field (needs_quotes f) f +:+ row_tail fs.
Proof.
  unfold join. revert f. induction fs as [|g fs IH]; intros f; [done|].
  rewrite !fmap_cons.
  change (String.concat (String delimiter EmptyString)
            (write_field (needs_quotes f) f
             :: write_field (needs_quotes g) g
             :: ((fun s => write_field (needs_quotes s) s) <$> fs)))
    with (write_field (needs_quotes f) f
          +:+ (String delimiter EmptyString
               +:+ String.concat (String delimiter EmptyString)
                     ((fun s => write_field (needs_quotes s) s) <$> g :: fs))).
  rewrite !string_app_assoc, IH. done.
Qed.

Lemma writerow_unfold (f : string) (fs : list string) :
  f :: fs ≠ [EmptyString] →
  writerow (f :: fs) = write_field (needs_quotes f) f +:+ row_tail fs.
Proof.
  intros Hne. rewrite <- join_row_tail. unfold writerow.
  destruct f as [|c f]; [|done]. by destruct fs.
Qed.

(** What [csv.writer] writes for a row, [csv.reader] reads as that row,
    unless a field is longer than the limit. *)
Lemma read_writerow (row : list string) (s : string) :
  read_records parse_reset
    (readlines true EmptyString (writerow row +:+ s))
  = if fits row
    then (row :: (read_records parse_reset (readlines true EmptyString s)).1,
          (read_records parse_reset (readlines true EmptyString s)).2)
    else ([], Raise csv_Error).
Proof.
  assert (at_field_start parse_reset) as Hstart by (split; [by left|done]).
  destruct row as [|f fs].
  { cbn [fits forallb]. unfold writerow. cbn [join String.concat].
    rewrite string_app_nil_l, !string_app_cons, string_app_nil_l.
    rewrite readlines_unfold.
    change (Ascii.eqb CR LF) with false. change (Ascii.eqb CR CR) with true.
    change (Ascii.eqb LF LF) with true. cbn iota.
    by rewrite string_app_nil_l, read_records_cons. }
  destruct (decide (f :: fs = [EmptyString])) as [[= -> ->]|Hne].
  { unfold writerow. rewrite string_app_assoc.
    rewrite !string_app_cons, string_app_nil_l.
    rewrite (read_field_end true EmptyString s parse_reset); done. }
  rewrite writerow_unfold, string_app_assoc by done.
  rewrite read_row_tail; [done|done|done|].
  intros _ ->. destruct f as [|c f]; [done|].
  unfold write_field. by destruct (needs_quotes (String c f)).
Qed.

(** ** Rows after rows *)

Lemma writerows_cons (row : list string) (rows : list (list string)) :
  writerows (row :: rows) = writerow row +:+ writerows rows.
Proof.
  unfold writerows. rewrite fmap_cons.
  destruct rows as [|r rows]; [by rewrite string_app_nil_r|done].
Qed.

(** Rows that fit are read as they were written. *)
Lemma read_writerows (rows : list (list string)) (s : string) :
  forallb fits rows = true →
  read_records parse_reset
    (readlines true EmptyString (writerows rows +:+ s))
  = (rows ++ (read_records parse_reset (readlines true EmptyString s)).1,
     (read_records parse_reset (readlines true EmptyString s)).2).
Proof.
  induction rows as [|r rows IH]; intros Hfit.
  { rewrite string_app_nil_l. by destruct (read_records _ _). }
  cbn [forallb] in Hfit. apply andb_true_iff in Hfit as [Hr Hrows].
  rewrite writerows_cons, string_app_assoc, read_writerow, Hr.
  by rewrite IH.
Qed.

(** A row with a field beyond the limit ends the reading. *)
Lemma read_writerows_unfit (rows : list (list string)) (s : string) :
  forallb fits rows = false →
  (read_records parse_reset
     (readlines true EmptyString (writerows rows +:+ s))).2
  = Raise csv_Error.
Proof.
  induction rows as [|r rows IH]; intros Hfit; [done|].
  cbn [forallb] in Hfit.
  rewrite writerows_cons, string_app_assoc, read_writerow.
  destruct (fits r); [|done]. cbn [snd]. by apply IH.
Qed.

Lemma row_tail_first (fs : list string) (s : string) :
  no_LF_first (row_tail fs +:+ s).
Proof. by destruct fs. Qed.

Lemma writerow_first (row : list string) (s : string) :
  no_LF_first (writerow row +:+ s).
Proof.
  destruct row as [|f fs]; [done|].
  destruct (decide (f :: fs = [EmptyString])) as [[= -> ->]|Hne]; [done|].
  rewrite writerow_unfold, string_app_assoc by done.
  unfold write_field. destruct (needs_quotes f) eqn:Hq; [done|].
  destruct f as [|c f]; [apply row_tail_first|].
  apply needs_quotes_cons in Hq as (_ & _ & Hc & _).
  rewrite string_app_cons. cbn. intros ->. done.
Qed.

Lemma writerows_first (rows : list (list string)) :
  no_LF_first (writerows rows).
Proof.
  destruct rows as [|r rows]; [done|].
  rewrite writerows_cons. apply writerow_first.
Qed.

Lemma ends_line_app (a b : string) :
  b ≠ EmptyString → ends_line (a +:+ b) = ends_line b.
Proof.
  intros Hb. induction a as [|c a IH]; [done|].
  rewrite string_app_cons. cbn [ends_line].
  destruct (a +:+ b) eqn:Hab; [|done].
  apply string_app_empty in Hab as [_ ?]. done.
Qed.

Lemma row_tail_ends (fs : list string) : ends_line (row_tail fs) = true.
Proof.
  induction fs as [|f fs IH]; [done|]. cbn [row_tail].
  change (String delimiter (write_field (needs_quotes f) f +:+ row_tail fs))
    with ((String delimiter (write_field (needs_quotes f) f)) +:+ row_tail fs).
  rewrite ends_line_app; [done|by destruct fs].
Qed.

Lemma writerow_ends (row : list string) : ends_line (writerow row) = true.
Proof.
  destruct row as [|f fs]; [done|].
  destruct (decide (f :: fs = [EmptyString])) as [[= -> ->]|Hne]; [done|].
  rewrite writerow_unfold by done.
  rewrite ends_line_app; [apply row_tail_ends|by destruct fs].
Qed.

Lemma writerows_ends (rows : list (list string)) :
  ends_line (writerows rows) = true.
Proof.
  induction rows as [|r rows IH]; [done|].
  rewrite writerows_cons.
  destruct (writerows rows) as [|c s] eqn:Hrows.
  - rewrite string_app_nil_r. apply writerow_ends.
  - by rewrite ends_line_app.
Qed.

(** ** Decoding *)

Lemma utf8_run_app (st : utf8_state) (a b : string) :
  utf8_run st (a +:+ b) = utf8_run (utf8_run st a) b.
Proof.
  revert st. induction a as [|c a IH]; intros st; [done|].
  rewrite string_app_cons. cbn [utf8_run]. apply IH.
Qed.

Lemma valid_utf8_app (a b : string) :
  valid_utf8 a = true → valid_utf8 (a +:+ b) = valid_utf8 b.
Proof.
  unfold valid_utf8. rewrite utf8_run_app.
  by destruct (utf8_run U_start a).
Qed.

(** ** The reader on a file *)

Lemma reader_stopped (lines : list string) (x : exn) :
  ∃ y, (reader lines (Some x)).2 = Some y.
Proof.
  unfold reader. destruct (read_records parse_reset lines) as [rs [p|y]];
    cbn; by eexists.
Qed.

Lemma csv_reader_valid (b : string) :
  valid_utf8 b = true →
  csv_reader b = reader (readlines true EmptyString b) None.
Proof. intros Hb. unfold csv_reader, file_lines. by rewrite Hb. Qed.

Lemma csv_reader_invalid (b : string) :
  valid_utf8 b = false → ∃ y, (csv_reader b).2 = Some y.
Proof.
  intros Hb. unfold csv_reader, file_lines. rewrite Hb. cbn [fst snd].
  apply reader_stopped.
Qed.

Lemma csv_reader_None (b : string) :
  (csv_reader b).2 = None → valid_utf8 b = true.
Proof.
  intros H. destruct (valid_utf8 b) eqn:Hb; [done|].
  destruct (csv_reader_invalid b Hb) as [y Hy]. congruence.
Qed.

(** The records of a file whose last record is terminated. *)
Lemma csv_reader_terminated (b : string) (recs : list (list string)) :
  terminated b → csv_reader b = (recs, None) →
  read_records parse_reset (readlines true EmptyString b)
  = (recs, Ok parse_reset).
Proof.
  intros [_ Hend] Hread.
  assert (valid_utf8 b = true) as Hb by (apply csv_reader_None; by rewrite Hread).
  rewrite csv_reader_valid in Hread by done. unfold reader in Hread.
  destruct (read_records parse_reset _) as [rs r]. cbn [fst snd] in *.
  subst r. cbn in Hread. rewrite app_nil_r in Hread. congruence.
Qed.

(** The file after rows were appended to a file whose last record is
    terminated: if it can be read at all, it holds the old records and
    the rows. *)
Lemma csv_reader_append (b : string) (recs recs' : list (list string))
    (rows : list (list string)) :
  terminated b → csv_reader b = (recs, None) →
  csv_reader (b +:+ writerows rows) = (recs', None) →
  recs' = recs ++ rows ∧ terminated (b +:+ writerows rows).
Proof.
  intros Hterm Hread Hread'.
  pose proof (csv_reader_terminated _ _ Hterm Hread) as Hrec.
  destruct Hterm as [Hends Hend].
  assert (valid_utf8 (b +:+ writerows rows) = true) as Hv
    by (apply csv_reader_None; by rewrite Hread').
  rewrite csv_reader_valid in Hread' by done.
  assert (read_records parse_reset
            (readlines true EmptyString (b +:+ writerows rows))
          = (recs ++ (read_records parse_reset
                        (readlines true EmptyString (writerows rows))).1,
             (read_records parse_reset
                (readlines true EmptyString (writerows rows))).2)) as Happ.
  { rewrite readlines_app by auto using writerows_first.
    rewrite read_records_app, Hrec. done. }
  pose proof (read_writerows rows EmptyString) as Hfit.
  pose proof (read_writerows_unfit rows EmptyString) as Hunfit.
  rewrite string_app_nil_r in Hfit, Hunfit.
  unfold reader in Hread'. rewrite Happ in Hread'. cbn [fst snd] in Hread'.
  destruct (forallb fits rows).
  - rewrite Hfit in Hread', Happ by done. cbn in Hread'.
    rewrite !app_nil_r in Hread'. split; [congruence|].
    split.
    + destruct (writerows rows) as [|c s] eqn:Hrows.
      * by rewrite string_app_nil_r.
      * rewrite ends_line_app by done. rewrite <- Hrows.
        apply writerows_ends.
    + rewrite Happ. cbn. done.
  - rewrite Hunfit in Hread' by done. done.
Qed.

(** Rows that fit and are UTF-8 can be read after they were appended. *)
Lemma csv_reader_append_fits (b : string) (recs : list (list string))
    (rows : list (list string)) :
  terminated b → csv_reader b = (recs, None) →
  forallb fits rows = true → valid_utf8 (writerows rows) = true →
  csv_reader (b +:+ writerows rows) = (recs ++ rows, None).
Proof.
  intros Hterm Hread Hfit Hv.
  pose proof (csv_reader_terminated _ _ Hterm Hread) as Hrec.
  destruct Hterm as [Hends Hend].
  assert (valid_utf8 b = true) as Hb by (apply csv_reader_None; by rewrite Hread).
  rewrite csv_reader_valid by (by rewrite valid_utf8_app).
  unfold reader.
  rewrite readlines_app by auto using writerows_first.
  rewrite read_records_app, Hrec. cbn [fst snd].
  pose proof (read_writerows rows EmptyString Hfit) as Hrows.
  rewrite string_app_nil_r in Hrows. rewrite Hrows. cbn.
  by rewrite !app_nil_r.
Qed.

Lemma terminated_empty : terminated EmptyString.
Proof. done. Qed.

Lemma csv_reader_empty : csv_reader EmptyString = ([], None).
Proof. done. Qed.

(** * The records of a file *)

Lemma kept_holds (fieldnames : list string) (file : option string) :
  kept fieldnames file →
  well_ended file ∧ ∃ st, holds file st ∧ store_ok fieldnames st.
Proof.
  destruct file as [b|]; cbn.
  - intros [Hterm [rows Hrows]]. split; [done|].
    exists (Some (fieldnames :: rows)). split; [done|]. by exists rows.
  - intros _. split; [done|]. by exists None.
Qed.



(** Reading a column off the file is reading it off the records. *)
Lemma read_column_holds (k : string) (file : option string) (st : store) :
  holds file st → read_column k file = column k st.
Proof.
  destruct file as [b|], st as [recs|]; cbn; try done.
  intros ->. cbn [fst snd].
  by destruct (for_each (fun d => getitem d k) (DictReader recs)).
Qed.

Lemma read_column_readable (k : string) (file : option string)
    (vals : list (option string)) :
  read_column k file = Ok vals → readable file.
Proof.
  destruct file as [b|]; cbn; [|done].
  destruct (for_each _ _); cbn; [|done].
  by destruct ((csv_reader b).2).
Qed.

(** Appending rows to a file appends them to its records, when the last
    record was terminated and the file can still be read. *)
Lemma append_holds (fieldnames : list string) (rows : list (list string))
    (file : option string) (st : store) :
  well_ended file → holds file st →
  readable (append_rows fieldnames rows file) →
  holds (append_rows fieldnames rows file)
        (append_records fieldnames rows st)
  ∧ well_ended (append_rows fieldnames rows file).
Proof.
  destruct file as [b|], st as [recs|];
    cbn [holds well_ended readable append_rows append_records]; try done.
  - intros Hterm Hread Hread'.
    destruct (csv_reader (b +:+ writerows rows)) as [recs' r] eqn:Hnew.
    cbn in Hread'. subst r.
    destruct (csv_reader_append _ _ _ _ Hterm Hread Hnew) as [-> Hterm'].
    done.
  - intros _ _ Hread'.
    destruct (csv_reader (writerows (fieldnames :: rows))) as [recs' r] eqn:Hnew.
    cbn in Hread'. subst r.
    destruct (csv_reader_append EmptyString [] _ (fieldnames :: rows)
                terminated_empty csv_reader_empty Hnew) as [-> Hterm'].
    done.
Qed.

Lemma append_records_changes (fieldnames : list string)
    (rows : list (list string)) (st : store) :
  rows ≠ [] → append_records fieldnames rows st ≠ st.
Proof.
  intros Hrows. destruct st as [f|]; cbn; [|done].
  intros [= H]. apply (f_equal length) in H. rewrite length_app in H.
  destruct rows; [done|]. cbn in H. lia.
Qed.

(** * The runs over the bytes and over the records *)

(** A run of [angew_scaper.py] over the bytes of a file does what the run
    over the records the file holds does: the same result, the same
    notices and queries, and the same rows appended. *)
Lemma scaper_refines (e : Scaper.env) (m : machine) (st : store) :
  holds (file m) st →
  let w := {| fs := st; trace := log m |} in
  (ScaperOnDisk.main e m).2 = (Scaper.main e w).2
  ∧ log (ScaperOnDisk.main e m).1 = trace (Scaper.main e w).1
  ∧ (file (ScaperOnDisk.main e m).1 = file m ∧ fs (Scaper.main e w).1 = st
     ∨ ∃ rows,
         rows ≠ []
         ∧ file (ScaperOnDisk.main e m).1
           = append_rows Scaper.fieldnames rows (file m)
         ∧ fs (Scaper.main e w).1
           = append_records Scaper.fieldnames rows st).
Proof.
  intros Hholds. cbv zeta.
  unfold ScaperOnDisk.main, Scaper.main. cbv zeta.
  destruct (Scaper.find_open_access_angew_papers_from _) as [papers|x].
  2:{ split_and!; [done|done|by left]. }
  unfold ScaperOnDisk.save_results_to_csv, Scaper.save_results_to_csv.
  cbn [file say fs emit].
  rewrite (read_column_holds _ _ _ Hholds).
  destruct (column "doi" st) as [vals|x].
  2:{ split_and!; [done|done|by left]. }
  destruct (Scaper.new_entries_of _ papers) as [|p new] eqn:Hnew.
  { split_and!; [done|done|by left]. }
  split_and!; [done|by cbn; rewrite <- !app_assoc|].
  right. exists (Scaper.written_rows e (p :: new)). split_and!; [|done|done].
  intros H. apply (f_equal length) in H.
  by rewrite written_rows_length in H.
Qed.

(** The same for [angew_scraper.py]. *)
Lemma scraper_refines (o : http_outcome crossref_data) (m : machine)
    (st : store) :
  holds (file m) st →
  let w := {| fs := st; trace := log m |} in
  (ScraperOnDisk.main o m).2 = (Scraper.main o w).2
  ∧ log (ScraperOnDisk.main o m).1 = trace (Scraper.main o w).1
  ∧ (file (ScraperOnDisk.main o m).1 = file m ∧ fs (Scraper.main o w).1 = st
     ∨ ∃ rows,
         rows ≠ []
         ∧ file (ScraperOnDisk.main o m).1
           = append_rows Scraper.fieldnames rows (file m)
         ∧ fs (Scraper.main o w).1
           = append_records Scraper.fieldnames rows st).
Proof.
  intros Hholds. cbv zeta.
  unfold ScraperOnDisk.main, Scraper.main. cbv zeta.
  destruct (Scraper.get_crossref_data o) as [data|x].
  2:{ split_and!; [done|done|by left]. }
  unfold ScraperOnDisk.load_existing_dois, Scraper.load_existing_dois.
  cbn [file say fs emit].
  rewrite (read_column_holds _ _ _ Hholds).
  destruct (column "DOI" st) as [vals|x]; cbn [mbind result_bind].
  2:{ split_and!; [done|done|by left]. }
  destruct (Scraper.collect _ (items_of data)) as [[|r rs]|x].
  - split_and!; [done|done|by left].
  - split_and!; [done|done|].
    right. exists (Scraper.row_of <$> r :: rs). by split_and!.
  - split_and!; [done|done|by left].
Qed.

(** A run that cannot read the file leaves it as it is. *)
Lemma scaper_unreadable (e : Scaper.env) (m : machine) :
  ¬ readable (file m) → file (ScaperOnDisk.main e m).1 = file m.
Proof.
  intros Hno. unfold ScaperOnDisk.main. cbv zeta.
  destruct (Scaper.find_open_access_angew_papers_from _) as [papers|x];
    [|done].
  unfold ScaperOnDisk.save_results_to_csv. cbn [file say].
  destruct (read_column "doi" (file m)) as [vals|x] eqn:Hread; [|done].
  destruct Hno. by eapply read_column_readable.
Qed.

Lemma scraper_unreadable (o : http_outcome crossref_data) (m : machine) :
  ¬ readable (file m) → file (ScraperOnDisk.main o m).1 = file m.
Proof.
  intros Hno. unfold ScraperOnDisk.main. cbv zeta.
  destruct (Scraper.get_crossref_data o) as [data|x]; [|done].
  unfold ScraperOnDisk.load_existing_dois. cbn [file say].
  destruct (read_column "DOI" (file m)) as [vals|x] eqn:Hread; [|done].
  destruct Hno. by eapply read_column_readable.
Qed.

Lemma readable_dec (file : option string) : readable file ∨ ¬ readable file.
Proof.
  destruct file as [b|]; cbn; [|by left].
  destruct ((csv_reader b).2); [by right|by left].
Qed.

(** * Runs on a store in good order *)

Lemma world_eta (w : world) : {| fs := fs w; trace := trace w |} = w.
Proof. by destruct w. Qed.

Lemma machine_eta (m : machine) : {| file := file m; log := log m |} = m.
Proof. by destruct m. Qed.

(** After a run on a file that holds [st] and ends with a terminated
    record, the file holds what the run over the records leaves, if it can
    be read at all. *)
Lemma scaper_run_holds (e : Scaper.env) (m : machine) (st : store) :
  well_ended (file m) → holds (file m) st →
  readable (file (ScaperOnDisk.main e m).1) →
  holds (file (ScaperOnDisk.main e m).1)
        (fs (Scaper.main e {| fs := st; trace := log m |}).1)
  ∧ well_ended (file (ScaperOnDisk.main e m).1).
Proof.
  intros Hend Hholds Hread.
  destruct (scaper_refines e m st Hholds) as (_ & _ & [[Hf Hs]|Hrows]).
  - by rewrite Hf, Hs.
  - destruct Hrows as (rows & _ & Hf & Hs). rewrite Hf, Hs.
    apply append_holds; [done|done|by rewrite <- Hf].
Qed.

Lemma scraper_run_holds (o : http_outcome crossref_data) (m : machine)
    (st : store) :
  well_ended (file m) → holds (file m) st →
  readable (file (ScraperOnDisk.main o m).1) →
  holds (file (ScraperOnDisk.main o m).1)
        (fs (Scraper.main o {| fs := st; trace := log m |}).1)
  ∧ well_ended (file (ScraperOnDisk.main o m).1).
Proof.
  intros Hend Hholds Hread.
  destruct (scraper_refines o m st Hholds) as (_ & _ & [[Hf Hs]|Hrows]).
  - by rewrite Hf, Hs.
  - destruct Hrows as (rows & _ & Hf & Hs). rewrite Hf, Hs.
    apply append_holds; [done|done|by rewrite <- Hf].
Qed.

(** The world the run over the records leaves is the one the second run
    over the bytes refines. *)
Lemma scaper_world_after (e : Scaper.env) (m : machine) (st : store) :
  holds (file m) st →
  {| fs := fs (Scaper.main e {| fs := st; trace := log m |}).1;
     trace := log (ScaperOnDisk.main e m).1 |}
  = (Scaper.main e {| fs := st; trace := log m |}).1.
Proof.
  intros Hholds.
  destruct (scaper_refines e m st Hholds) as (_ & -> & _).
  apply world_eta.
Qed.

Lemma scraper_world_after (o : http_outcome crossref_data) (m : machine)
    (st : store) :
  holds (file m) st →
  {| fs := fs (Scraper.main o {| fs := st; trace := log m |}).1;
     trace := log (ScraperOnDisk.main o m).1 |}
  = (Scraper.main o {| fs := st; trace := log m |}).1.
Proof.
  intros Hholds.
  destruct (scraper_refines o m st Hholds) as (_ & -> & _).
  apply world_eta.
Qed.

Lemma scaper_disk_twice (e e' : Scaper.env) (m : machine) :
  kept Scaper.fieldnames (file m) →
  Scaper.crossref e' = Scaper.crossref e →
  file (ScaperOnDisk.main e' (ScaperOnDisk.main e m).1).1
  = file (ScaperOnDisk.main e m).1.
Proof.
  intros (Hend & st & Hholds & Hok)%kept_holds Hcr.
  destruct (readable_dec (file (ScaperOnDisk.main e m).1)) as [Hread|Hno].
  2:{ by apply scaper_unreadable. }
  destruct (scaper_run_holds e m st Hend Hholds Hread) as [Hholds1 _].
  destruct (scaper_refines e' _ _ Hholds1) as (_ & _ & [[Hf _]|Hrows]);
    [done|].
  destruct Hrows as (rows & Hne & _ & Hs).
  rewrite scaper_world_after in Hs by done.
  rewrite scaper_main_twice in Hs by done.
  symmetry in Hs. by apply append_records_changes in Hs.
Qed.

Lemma scraper_disk_twice (o : http_outcome crossref_data) (m : machine) :
  kept Scraper.fieldnames (file m) →
  file (ScraperOnDisk.main o (ScraperOnDisk.main o m).1).1
  = file (ScraperOnDisk.main o m).1.
Proof.
  intros (Hend & st & Hholds & Hok)%kept_holds.
  destruct (readable_dec (file (ScraperOnDisk.main o m).1)) as [Hread|Hno].
  2:{ by apply scraper_unreadable. }
  destruct (scraper_run_holds o m st Hend Hholds Hread) as [Hholds1 _].
  destruct (scraper_refines o _ _ Hholds1) as (_ & _ & [[Hf _]|Hrows]);
    [done|].
  destruct Hrows as (rows & Hne & _ & Hs).
  rewrite scraper_world_after in Hs by done.
  rewrite scraper_main_twice in Hs by done.
  symmetry in Hs. by apply append_records_changes in Hs.
Qed.

(** * The properties *)




Lemma added_emit (m : notice) (w : world) :
  added (emit [Says m] w) = match m with Added k => k | _ => O end.
Proof. unfold added, emit. cbn. rewrite last_snoc. by destruct m. Qed.









Lemma paper_of_item_doi (item : work) (p : Scaper.paper) :
  Scaper.paper_of_item item = Ok p → Scaper.doi p = doi_of item.
Proof.
  unfold Scaper.paper_of_item.
  destruct (first (default ["No title"] (w_title item))); cbn; [|done].
  destruct (first (default [{| lic_URL := None |}] (w_license item))); cbn; [|done].
  destruct (first (date_parts_of item)) as [parts|]; cbn; [|done].
  destruct (first parts); cbn; [|done].
  by intros [= <-].
Qed.

Lemma for_each_paper_dois (items : list work) (papers : list Scaper.paper) :
  for_each Scaper.paper_of_item items = Ok papers →
  Scaper.doi <$> papers = doi_of <$> items.
Proof.
  revert papers. induction items as [|i items IH]; intros papers.
  { by intros [= <-]. }
  cbn. destruct (Scaper.paper_of_item i) as [p|] eqn:Hp; cbn; [|done].
  destruct (for_each Scaper.paper_of_item items) as [ps|]; cbn; [|done].
  intros [= <-]. cbn. f_equal; [by apply paper_of_item_doi | by apply IH].
Qed.

Lemma find_page_dois (o : http_outcome crossref_data) (papers : list Scaper.paper) :
  Scaper.find_open_access_angew_papers_from o = Ok papers →
  Scaper.doi <$> papers = doi_of <$> page o.
Proof.
  unfold Scaper.find_open_access_angew_papers_from, page.
  destruct (get_json o) as [data|]; cbn; [|done].
  apply for_each_paper_dois.
Qed.

Lemma new_entries_dois (ex : gset (option string)) (papers : list Scaper.paper) :
  Scaper.doi <$> Scaper.new_entries_of ex papers
  = filter (fun d => Some d ∉ ex) (Scaper.doi <$> papers).
Proof.
  unfold Scaper.new_entries_of.
  induction papers as [|p papers IH]; [done|].
  rewrite fmap_cons, !filter_cons. cbn beta.
  case_decide; [|done]. by rewrite fmap_cons, IH.
Qed.

(** Recorded identifiers stay distinct when distinct fresh ones are added. *)
Lemma NoDup_recorded (ids : list (option string)) (ds : list string) :
  NoDup ids →
  NoDup (filter (fun d => Some d ∉ (list_to_set ids : gset _)) ds) →
  NoDup (ids ++ (Some <$> filter (fun d => Some d ∉ (list_to_set ids : gset _)) ds)).
Proof.
  intros Hids Hds. apply NoDup_app. split_and!; [done| |].
  - intros x Hx [d [-> Hd]]%list_elem_of_fmap.
    apply list_elem_of_filter in Hd as [Hd _]. apply Hd.
    by apply elem_of_list_to_set.
  - by apply (NoDup_fmap_2 Some).
Qed.

Lemma scaper_keeps_distinct (e : Scaper.env) (w : world) :
  store_ok Scaper.fieldnames (fs w) →
  NoDup (identifiers (fs w)) →
  NoDup (filter (fun d => Some d ∉ identifiers (fs w))
           (doi_of <$> page (Scaper.crossref e))) →
  NoDup (identifiers (fs (Scaper.main e w).1)).
Proof.
  intros Hok Hids Hpage. unfold Scaper.main. cbv zeta.
  destruct (Scaper.find_open_access_angew_papers_from _) as [papers|x] eqn:Hf;
    [|done].
  rewrite save_identifiers by done. rewrite fs_emit.
  rewrite (list_fmap_compose Scaper.doi Some), new_entries_dois.
  rewrite (find_page_dois _ _ Hf). apply NoDup_recorded; [done|].
  erewrite list_filter_iff; [exact Hpage|].
  intros d. by rewrite elem_of_list_to_set.
Qed.

Lemma scraper_keeps_distinct (o : http_outcome crossref_data) (w : world) :
  store_ok Scraper.fieldnames (fs w) →
  NoDup (identifiers (fs w)) →
  NoDup (filter (fun d => d ≠ "" ∧ Some d ∉ identifiers (fs w))
           (doi_of <$> page o)) →
  NoDup (identifiers (fs (Scraper.main o w).1)).
Proof.
  intros Hok Hids Hpage. rewrite scraper_main_fs by done.
  destruct (Scraper.collect _ (page o)) as [[|r rs]|x] eqn:Hc; try done.
  unfold Scraper.append_to_csv.
  rewrite (identifiers_append Scraper.fieldnames) by auto using row_of_nonblank.
  rewrite row_of_ids, (list_fmap_compose Scraper.DOI Some).
  rewrite (collect_dois _ _ _ Hc).
  apply NoDup_app. split_and!; [done| |].
  - intros x Hx [d [-> Hd]]%list_elem_of_fmap.
    apply list_elem_of_filter in Hd as [[_ Hd] _]. apply Hd.
    by apply elem_of_list_to_set.
  - apply (NoDup_fmap_2 Some).
    erewrite list_filter_iff; [exact Hpage|].
    intros d. by rewrite elem_of_list_to_set.
Qed.

(** C3, as stated, fails — a page that carries the same identifier twice.
    Both scripts compare each item with the identifiers read from the file
    before the run only, so on a new store both copies are written and the
    store holds ["10.1/abc"] twice. *)
Lemma unique_identifiers_counterexample :
  read_column "doi" (file (on_disk fresh)) = Ok []
  ∧ read_column "doi"
      (file (ScaperOnDisk.main (env_of [work_abc; work_abc] europepmc_down)
               (on_disk fresh)).1)
    = Ok [Some "10.1/abc"; Some "10.1/abc"]
  ∧ read_column "DOI" (file (on_disk fresh)) = Ok []
  ∧ read_column "DOI"
      (file (ScraperOnDisk.main (answer [work_abc; work_abc]) (on_disk fresh)).1)
    = Ok [Some "10.1/abc"; Some "10.1/abc"]
  ∧ ¬ NoDup [Some "10.1/abc"; Some "10.1/abc"].
Proof.
  split_and!; try (vm_compute; reflexivity).
  intros Hdup. apply NoDup_cons in Hdup as [Hin _]. apply Hin. left.
Qed.

(** C3, amended — Identifier uniqueness invariant.  For a store in good
    order (no file yet, or a file that is read without an exception, starts
    with the script's header and ends with the line break of its last
    record) whose recorded identifiers are pairwise distinct, the
    identifiers read from the file after one run are pairwise distinct
    again, provided the identifiers of the fetched page that are not
    recorded yet are pairwise distinct (for [angew_scaper.py] a missing
    identifier counts as the empty one, for [angew_scraper.py] empty
    identifiers do not count); identifiers that are recorded already may
    come any number of times. *)
Theorem unique_identifiers_kept (e : Scaper.env) (o : http_outcome crossref_data)
    (ma mb : machine) (ids_a ids_b : list (option string)) :
  kept Scaper.fieldnames (file ma) →
  read_column "doi" (file ma) = Ok ids_a → NoDup ids_a →
  NoDup (filter (fun d => Some d ∉ ids_a)
           (doi_of <$> page (Scaper.crossref e))) →
  kept Scraper.fieldnames (file mb) →
  read_column "DOI" (file mb) = Ok ids_b → NoDup ids_b →
  NoDup (filter (fun d => d ≠ "" ∧ Some d ∉ ids_b) (doi_of <$> page o)) →
  (∀ ids', read_column "doi" (file (ScaperOnDisk.main e ma).1) = Ok ids' →
           NoDup ids')
  ∧ (∀ ids', read_column "DOI" (file (ScraperOnDisk.main o mb).1) = Ok ids' →
             NoDup ids').
Proof.
  intros (Henda & sta & Hha & Hoka)%kept_holds Hca Hda Hpa
         (Hendb & stb & Hhb & Hokb)%kept_holds Hcb Hdb Hpb.
  rewrite (read_column_holds _ _ _ Hha),
    (column_store_ok _ _ getitem_doi _ Hoka) in Hca.
  rewrite (read_column_holds _ _ _ Hhb),
    (column_store_ok _ _ getitem_DOI _ Hokb) in Hcb.
  simplify_eq. split.
  - intros ids' Hread.
    destruct (scaper_run_holds e ma sta Henda Hha) as [Hafter _].
    { by eapply read_column_readable. }
    rewrite (read_column_holds _ _ _ Hafter) in Hread.
    rewrite (column_store_ok _ _ getitem_doi) in Hread
      by (by apply scaper_main_store_ok).
    simplify_eq. by apply scaper_keeps_distinct.
  - intros ids' Hread.
    destruct (scraper_run_holds o mb stb Hendb Hhb) as [Hafter _].
    { by eapply read_column_readable. }
    rewrite (read_column_holds _ _ _ Hafter) in Hread.
    rewrite (column_store_ok _ _ getitem_DOI) in Hread
      by (by apply scraper_main_store_ok).
    simplify_eq. by apply scraper_keeps_distinct.
Qed.

Lemma unique_identifiers_kept_witness :
  read_column "doi"
    (file (ScaperOnDisk.main
             (env_of [work_abc; work_xyz; work_abc] europepmc_down)
             (on_disk scaper_store)).1)
  = Ok [Some "10.1/abc"; Some "10.1/xyz"]
  ∧ NoDup [Some "10.1/abc"; Some "10.1/xyz"]
  ∧ read_column "DOI"
      (file (ScraperOnDisk.main
               (answer [work_no_doi; work_abc; work_xyz; work_abc; work_no_doi])
               (on_disk scraper_store)).1)
    = Ok [Some "10.1/abc"; Some "10.1/xyz"].
Proof.
  assert (read_column "doi"
            (file (ScaperOnDisk.main
                     (env_of [work_abc; work_xyz; work_abc] europepmc_down)
                     (on_disk scaper_store)).1)
          = Ok [Some "10.1/abc"; Some "10.1/xyz"]) as Hread
    by (vm_compute; reflexivity).
  split; [exact Hread|]. split; [|vm_compute; reflexivity].
  refine (proj1 (unique_identifiers_kept
                   (env_of [work_abc; work_xyz; work_abc] europepmc_down)
                   (answer [work_no_doi; work_abc; work_xyz; work_abc;
                            work_no_doi])
                   (on_disk scaper_store) (on_disk scraper_store)
                   [Some "10.1/abc"] [Some "10.1/abc"]
                   _ eq_refl _ _ _ eq_refl _ _) _ Hread).
  - split; [split; vm_compute; reflexivity|].
    eexists. vm_compute. reflexivity.
  - apply NoDup_singleton.
  - vm_compute. apply NoDup_singleton.
  - split; [split; vm_compute; reflexivity|].
    eexists. vm_compute. reflexivity.
  - apply NoDup_singleton.
  - vm_compute. apply NoDup_singleton.
Defined.

(** The entries [collect] keeps come from works whose identifier is there
    and is not empty. *)
Lemma collect_identified (ex : gset (option string)) (ws : list work)
    (es : list Scraper.entry) (r : Scraper.entry) :
  Scraper.collect ex ws = Ok es → r ∈ es →
  Scraper.DOI r ≠ "" ∧ ∃ i, i ∈ ws ∧ w_DOI i = Some (Scraper.DOI r).
Proof.
  intros Hc Hr.
  assert (Scraper.DOI r ∈ Scraper.DOI <$> es) as Hd
    by by apply list_elem_of_fmap_2.
  rewrite (collect_dois _ _ _ Hc) in Hd.
  apply list_elem_of_filter in Hd as [[Hne _] Hd].
  split; [done|].
  apply list_elem_of_fmap in Hd as [i [Hi Hin]].
  exists i. split; [done|].
  unfold doi_of in Hi. destruct (w_DOI i); cbn in Hi; congruence.
Qed.

(** C4 fails on the code of [angew_scaper.py].  A work without a ["DOI"]
    key gets the identifier [""]; [save_results_to_csv] only compares it with
    the recorded identifiers, queries Europe PMC for it and writes its row,
    where [main] of [angew_scraper.py] skips such a work ([if not doi]). *)
Theorem scaper_persists_missing_identifier :
  w_DOI work_no_doi = None
  ∧ Scaper.main (env_of [work_no_doi] europepmc_down) fresh
    = ({| fs := Some [Scaper.fieldnames;
                      ["A paper"; "2024"; ""; "https://doi.org/10.1/abc";
                       "https://creativecommons.org/licenses/by/4.0/";
                       "Abstract not available"; "2025-07-02 09:00"]];
          trace := [Says Searching; Says (Enriching ""); QueryEuropePMC "";
                    Sleep; Says (Added 1)] |},
       Ok ())
  ∧ fs (Scraper.main (answer [work_no_doi]) fresh).1 = None.
Proof. split_and!; vm_compute; reflexivity. Qed.

(** Malformed identifier exclusion as [angew_scraper.py] has it.  Whatever
    the store and the Crossref answer, the run writes the rows of some
    entries [es] (none: the store is left as it was), and each of them stems
    from a work of the page whose identifier is present and not empty: no
    row is written for a work whose identifier is missing or empty. *)
Lemma scraper_excludes_missing_identifier (o : http_outcome crossref_data)
    (w : world) :
  ∃ es : list Scraper.entry,
    fs (Scraper.main o w).1
    = match es with [] => fs w | _ => Scraper.append_to_csv es (fs w) end
    ∧ ∀ r, r ∈ es →
        Scraper.DOI r ≠ "" ∧ ∃ i, i ∈ page o ∧ w_DOI i = Some (Scraper.DOI r).
Proof.
  unfold Scraper.main, Scraper.get_crossref_data, page. cbv zeta.
  destruct (get_json o) as [data|x].
  2:{ exists []. split; [done|]. by intros r ?%elem_of_nil. }
  rewrite fs_emit.
  destruct (Scraper.load_existing_dois (fs w)) as [ex|x].
  2:{ exists []. split; [done|]. by intros r ?%elem_of_nil. }
  destruct (Scraper.collect ex (items_of data)) as [[|r rs]|x] eqn:Hc.
  - exists []. split; [done|]. by intros r ?%elem_of_nil.
  - exists (r :: rs). split; [done|].
    intros r' Hr'. by eapply collect_identified.
  - exists []. split; [done|]. by intros r ?%elem_of_nil.
Qed.

(** C5, as stated, fails for [angew_scraper.py], which has no enrichment
    step: a new work without an inline abstract is written with the empty
    abstract field. *)
Lemma fallback_sentinel_counterexample :
  w_abstract work_abc = None
  ∧ fs (Scraper.main (answer [work_abc]) fresh).1
    = Some [Scraper.fieldnames;
            ["A paper"; "Curie"; "10.1/abc"; "https://doi.org/10.1/abc";
             "2024-7-15"; ""]].
Proof. split; vm_compute; reflexivity. Qed.

Lemma enrich_sentinel (e : Scaper.env) (i : nat) (p : Scaper.paper) :
  Scaper.abstract p = None →
  Scaper.get_abstract_from_europepmc (Scaper.europepmc e i) (Scaper.doi p) = None
  ∨ Scaper.get_abstract_from_europepmc (Scaper.europepmc e i) (Scaper.doi p) = Some "" →
  Scaper.abstract (Scaper.enrich e i p).1 = Some Scaper.sentinel.
Proof.
  intros Hp Hlook. unfold Scaper.enrich, Scaper.lacks_abstract. rewrite Hp. cbn.
  by destruct Hlook as [-> | ->].
Qed.

(** C5, amended — Fallback sentinel in [angew_scaper.py].  Let the run fetch
    [papers], and let [p] be its [i]-th new entry.  If [p] came without an
    abstract and the Europe PMC lookup made for it yields nothing (or empty
    text), then the row written for [p] — the [i]-th record after those the
    file had, the header included — has the abstract field
    ["Abstract not available"], which is not the empty string. *)
Theorem fallback_sentinel (e : Scaper.env) (w : world)
    (papers : list Scaper.paper) (vals : list (option string))
    (i : nat) (p : Scaper.paper) :
  Scaper.find_open_access_angew_papers_from (Scaper.crossref e) = Ok papers →
  column "doi" (fs w) = Ok vals →
  Scaper.new_entries_of (list_to_set vals) papers !! i = Some p →
  Scaper.abstract p = None →
  Scaper.get_abstract_from_europepmc (Scaper.europepmc e i) (Scaper.doi p) = None
  ∨ Scaper.get_abstract_from_europepmc (Scaper.europepmc e i) (Scaper.doi p) = Some "" →
  ∃ f row,
    fs (Scaper.main e w).1 = Some f
    ∧ f !! (length (default [Scaper.fieldnames] (fs w)) + i)%nat = Some row
    ∧ row !! 5%nat = Some Scaper.sentinel
    ∧ Scaper.sentinel ≠ "".
Proof.
  intros Hfind Hcol Hi Hp Hlook.
  unfold Scaper.main. cbv zeta. rewrite Hfind.
  unfold Scaper.save_results_to_csv. rewrite fs_emit, Hcol.
  destruct (Scaper.new_entries_of _ papers) as [|q new] eqn:Hnew; [done|].
  cbn [fst fs].
  pose proof (written_rows_lookup e _ _ _ Hi) as Hrow.
  exists (default [Scaper.fieldnames] (fs w) ++ Scaper.written_rows e (q :: new)),
         (Scaper.row_of (Scaper.enrich e i p).1 (Scaper.now e i)).
  split_and!.
  - by destruct (fs w).
  - rewrite lookup_app_r by lia.
    by replace (_ + i - _)%nat with i by lia.
  - unfold Scaper.row_of. cbn. by rewrite enrich_sentinel.
  - done.
Qed.

Lemma fallback_sentinel_witness :
  ∃ f row,
    fs (Scaper.main (env_of [work_abc; work_xyz] europepmc_down) fresh).1 = Some f
    ∧ f !! (1 + 0)%nat = Some row
    ∧ row !! 5%nat = Some Scaper.sentinel
    ∧ Scaper.sentinel ≠ "".
Proof.
  refine (fallback_sentinel (env_of [work_abc; work_xyz] europepmc_down) fresh
            _ [] 0%nat _ _ _ _ _ _).
  - vm_compute. reflexivity.
  - reflexivity.
  - vm_compute. reflexivity.
  - reflexivity.
  - left. vm_compute. reflexivity.
Defined.

(** C6, as stated, fails for [angew_scaper.py], which keeps the first date
    part only: date parts [[2024, 7]] give the year [2024], written as
    ["2024"], not ["2024-7"]. *)
Lemma date_normalization_counterexample :
  date_parts_of work_year_month = [[Some 2024; Some 7]]
  ∧ ∃ p, Scaper.paper_of_item work_year_month = Ok p
         ∧ Scaper.year p = Some 2024
         ∧ Scaper.row_of p "2025-07-02 09:00" !! 1%nat = Some "2024".
Proof. split; [reflexivity|]. eexists. split_and!; vm_compute; reflexivity. Qed.

(** C6, amended — Date normalization in [angew_scraper.py].  The date of an
    entry is the first list of date parts joined with ["-"]; a missing part
    is left out; [[2024]] gives ["2024"], [[2024, 7]] gives ["2024-7"] and
    [[2024, 7, 15]] gives ["2024-7-15"]. *)
Theorem date_normalization :
  Scraper.pub_date_of [Some 2024] = "2024"
  ∧ Scraper.pub_date_of [Some 2024; Some 7] = "2024-7"
  ∧ Scraper.pub_date_of [Some 2024; Some 7; Some 15] = "2024-7-15"
  ∧ (∀ xs ys, Scraper.pub_date_of (xs ++ None :: ys) = Scraper.pub_date_of (xs ++ ys))
  ∧ (∀ i doi parts rest,
       date_parts_of i = parts :: rest →
       ∃ r, Scraper.entry_of_item i doi = Ok r
            ∧ Scraper.Date r = join "-" (Scraper.shown_parts parts)).
Proof.
  split_and!; try reflexivity.
  - intros xs ys. unfold Scraper.pub_date_of, Scraper.shown_parts.
    by rewrite !omap_app.
  - intros i doi parts rest Hparts. unfold Scraper.entry_of_item.
    rewrite Hparts. cbn. by eexists.
Qed.

(** C7 — Enrichment lookup error handling.  For every identifier and
    whatever Europe PMC does, [get_abstract_from_europepmc] yields absence
    on a connection failure, on a 4xx/5xx status, on a body that is not
    JSON, on a payload that is not an object and on a missing or empty
    result list; it yields text exactly when the status is no 4xx/5xx and
    the first element of [resultList.result] is an object whose
    [abstractText] is a non-empty string, in which case the text is that
    string without the whitespace at its two ends; and whatever Europe PMC
    does, the run ends as it does when Europe PMC cannot be reached. *)
Theorem enrichment_lookup_never_raises (service : string → http_outcome json)
    (doi : string) :
  (service doi = NetworkFailure →
   Scaper.get_abstract_from_europepmc service doi = None)
  ∧ (∀ status body, service doi = Response status body →
       400 ≤ status < 600 →
       Scaper.get_abstract_from_europepmc service doi = None)
  ∧ (∀ status, service doi = Response status None →
       Scaper.get_abstract_from_europepmc service doi = None)
  ∧ (∀ status data, service doi = Response status (Some data) →
       (∀ kvs, data ≠ JObj kvs) →
       Scaper.get_abstract_from_europepmc service doi = None)
  ∧ (∀ status kvs, service doi = Response status (Some (JObj kvs)) →
       "resultList" ∉ (fst <$> kvs)
       ∨ (∃ kvs2, binds kvs "resultList" (JObj kvs2)
                  ∧ ("result" ∉ (fst <$> kvs2)
                     ∨ binds kvs2 "result" (JArr []))) →
       Scaper.get_abstract_from_europepmc service doi = None)
  ∧ (∀ s, Scaper.get_abstract_from_europepmc service doi = Some s ↔
       ∃ status kvs kvs2 kvs3 rest text,
         service doi = Response status (Some (JObj kvs))
         ∧ ¬ (400 ≤ status < 600)
         ∧ binds kvs "resultList" (JObj kvs2)
         ∧ binds kvs2 "result" (JArr (JObj kvs3 :: rest))
         ∧ binds kvs3 "abstractText" (JStr text)
         ∧ text ≠ ""
         ∧ s = strip text
         ∧ trimmed text s)
  ∧ (∀ (e : Scaper.env) (w : world),
       (Scaper.main e w).2
       = (Scaper.main {| Scaper.crossref := Scaper.crossref e;
                         Scaper.europepmc := fun _ _ => NetworkFailure;
                         Scaper.now := Scaper.now e |} w).2).
Proof.
  assert (∀ status : Z, ok_status status = false ↔ 400 ≤ status < 600) as Hst.
  { intros status. unfold ok_status.
    rewrite negb_false_iff, andb_true_iff, Z.leb_le, Z.ltb_lt. done. }
  unfold Scaper.get_abstract_from_europepmc.
  split_and!.
  - by intros ->.
  - intros status body -> Hs. apply Hst in Hs. cbn. by rewrite Hs.
  - intros status ->. cbn. by destruct (ok_status status).
  - intros status data -> Hshape. cbn.
    destruct (ok_status status); [|done]. cbn.
    destruct data; try done. by destruct (Hshape kvs).
  - intros status kvs -> Hcase. cbn.
    destruct (ok_status status); [|done]. cbn.
    destruct Hcase as [Hno|(kvs2 & Hrl & Hres)].
    + apply assoc_last_None in Hno. by rewrite Hno.
    + apply assoc_last_binds in Hrl. rewrite Hrl. cbn.
      destruct Hres as [Hno|Hres].
      * apply assoc_last_None in Hno. by rewrite Hno.
      * apply assoc_last_binds in Hres. by rewrite Hres.
  - intros s. split.
    + destruct (service doi) as [|status [data|]]; cbn;
        [done| |by destruct (ok_status status)].
      destruct (ok_status status) eqn:Hok; cbn; [|done].
      destruct data as [| | | | |kvs]; cbn; try done.
      destruct (assoc_last "resultList" kvs) as [rl|] eqn:Hrl; cbn; [|done].
      destruct rl as [| | | | |kvs2]; cbn; try done.
      destruct (assoc_last "result" kvs2) as [results|] eqn:Hres; cbn; [|done].
      destruct (truthy results) eqn:Htr; cbn; [|done].
      destruct results as [| | |t|[|r0 rest]|kvs'];
        cbn; try done; try (by destruct t).
      destruct r0 as [| | | | |kvs3]; cbn; try done.
      destruct (assoc_last "abstractText" kvs3) as [a|] eqn:Ha; cbn; [|done].
      destruct (truthy a) eqn:Hta; cbn; [|done].
      destruct a as [| | |text| |]; cbn; try done.
      intros [= <-]. exists status, kvs, kvs2, kvs3, rest, text.
      split_and!; try done.
      * intros Hs. apply Hst in Hs. congruence.
      * by apply assoc_last_binds.
      * by apply assoc_last_binds.
      * by apply assoc_last_binds.
      * by apply truthy_str_spec.
      * apply strip_trimmed.
    + intros (status & kvs & kvs2 & kvs3 & rest & text
              & -> & Hs & Hrl & Hres & Ha & Hne & -> & _).
      cbn. destruct (ok_status status) eqn:Hok;
        [|by apply Hst in Hok]. cbn.
      apply assoc_last_binds in Hrl, Hres, Ha.
      rewrite Hrl. cbn. rewrite Hres. cbn. rewrite Ha. cbn.
      apply truthy_str_spec in Hne. by rewrite Hne.
  - intros e w. unfold Scaper.main. cbv zeta. cbn [Scaper.crossref].
    destruct (Scaper.find_open_access_angew_papers_from _) as [papers|x];
      [|done].
    unfold Scaper.save_results_to_csv.
    destruct (column "doi" _) as [vals|x]; [|done].
    by destruct (Scaper.new_entries_of _ papers).
Qed.

(** C8 — Fetch failure atomicity.  When the Crossref request fails (no
    connection, or a 4xx/5xx status), a run of either script ends with the
    exception right after its first notice: the store is what it was, and
    nothing was normalised, looked up or appended. *)
Theorem fetch_failure_atomic (e : Scaper.env) (o : http_outcome crossref_data)
    (wa wb : world) :
  fetch_fails (Scaper.crossref e) →
  fetch_fails o →
  (∃ x, Scaper.main e wa = (emit [Says Searching] wa, Raise x))
  ∧ (∃ x, Scraper.main o wb = (emit [Says Searching] wb, Raise x))
  ∧ fs (Scaper.main e wa).1 = fs wa
  ∧ fs (Scraper.main o wb).1 = fs wb.
Proof.
  intros Ha Hb.
  assert (∀ o' : http_outcome crossref_data,
            fetch_fails o' → ∃ x, get_json o' = Raise x) as Hraise.
  { intros [|status body]; cbn; [by eexists|]. intros ->. by eexists. }
  destruct (Hraise _ Ha) as [xa Hxa]. destruct (Hraise _ Hb) as [xb Hxb].
  unfold Scaper.main, Scaper.find_open_access_angew_papers_from,
    Scraper.main, Scraper.get_crossref_data.
  rewrite Hxa, Hxb. cbn. split_and!; by eauto.
Qed.

Lemma fetch_failure_atomic_witness :
  (∃ x, Scaper.main {| Scaper.crossref := Response 503 None;
                       Scaper.europepmc := europepmc_up;
                       Scaper.now := fun _ => "2025-07-02 09:00" |} scaper_store
        = (emit [Says Searching] scaper_store, Raise x))
  ∧ (∃ x, Scraper.main NetworkFailure scraper_store
          = (emit [Says Searching] scraper_store, Raise x))
  ∧ fs (Scaper.main {| Scaper.crossref := Response 503 None;
                       Scaper.europepmc := europepmc_up;
                       Scaper.now := fun _ => "2025-07-02 09:00" |} scaper_store).1
    = fs scaper_store
  ∧ fs (Scraper.main NetworkFailure scraper_store).1 = fs scraper_store.
Proof.
  apply (fetch_failure_atomic
           {| Scaper.crossref := Response 503 None;
              Scaper.europepmc := europepmc_up;
              Scaper.now := fun _ => "2025-07-02 09:00" |}
           NetworkFailure scaper_store scraper_store).
  - reflexivity.
  - exact I.
Defined.

(** When the normalisation of [angew_scaper.py] raises: exactly on an empty
    title list, an empty license list, or date parts without a first
    element; the exception is [IndexError]. *)
Lemma paper_of_item_raises (item : work) (x : exn) :
  Scaper.paper_of_item item = Raise x ↔
  x = IndexError
  ∧ (w_title item = Some [] ∨ w_license item = Some []
     ∨ date_parts_of item = [] ∨ ∃ rest, date_parts_of item = [] :: rest).
Proof.
  unfold Scaper.paper_of_item. split.
  - destruct (w_title item) as [[|t ts]|]; cbn;
      [intros [= <-]; by auto | |];
      (destruct (w_license item) as [[|l ls]|]; cbn;
         [intros [= <-]; by auto | |];
         (destruct (date_parts_of item) as [|[|y parts] rest]; cbn;
            [intros [= <-]; by auto
            |intros [= <-]; split; [done|]; do 3 right; by exists rest
            |done])).
  - intros [-> Hshape].
    destruct (w_title item) as [[|t ts]|]; cbn; [done| |];
      (destruct (w_license item) as [[|l ls]|]; cbn; [done| |];
         (destruct (date_parts_of item) as [|[|y parts] rest]; cbn;
            [done|done|]));
      destruct Hshape as [Hs|[Hs|[Hs|[rest' Hs]]]]; discriminate Hs.
Qed.

(** C9, as stated, fails for [angew_scraper.py]: it joins the title parts,
    and a work without a ["title"] key gets the empty title. *)
Lemma title_placeholder_counterexample :
  w_title work_no_title = None
  ∧ (∃ r, Scraper.entry_of_item work_no_title "10.1/abc" = Ok r
          ∧ Scraper.Title r = "")
  ∧ fs (Scraper.main (answer [work_no_title]) fresh).1
    = Some [Scraper.fieldnames;
            [""; "Curie"; "10.1/abc"; "https://doi.org/10.1/abc";
             "2024-7-15"; ""]].
Proof.
  split_and!; [reflexivity | | vm_compute; reflexivity].
  eexists. split; vm_compute; reflexivity.
Qed.

(** C9, amended — Title placeholder in [angew_scaper.py].  For a work
    without a ["title"] key the normalised record has the title
    ["No title"], which is not empty; the only way not to get a record is an
    [IndexError] from the license list or the date parts. *)
Theorem title_placeholder (item : work) :
  w_title item = None →
  match Scaper.paper_of_item item with
  | Ok p => Scaper.title p = "No title" ∧ Scaper.title p ≠ ""
  | Raise x =>
      x = IndexError
      ∧ (w_license item = Some [] ∨ date_parts_of item = []
         ∨ ∃ rest, date_parts_of item = [] :: rest)
  end.
Proof.
  intros Ht.
  destruct (Scaper.paper_of_item item) as [p|x] eqn:Hp.
  - revert Hp. unfold Scaper.paper_of_item. rewrite Ht. cbn.
    destruct (first (default [{| lic_URL := None |}] (w_license item))); cbn; [|done].
    destruct (first (date_parts_of item)) as [parts|]; cbn; [|done].
    destruct (first parts); cbn; [|done].
    by intros [= <-].
  - apply paper_of_item_raises in Hp as [-> [Hp|Hp]]; [congruence|done].
Qed.

Lemma title_placeholder_witness :
  match Scaper.paper_of_item work_no_title with
  | Ok p => Scaper.title p = "No title" ∧ Scaper.title p ≠ ""
  | Raise x =>
      x = IndexError
      ∧ (w_license work_no_title = Some [] ∨ date_parts_of work_no_title = []
         ∨ ∃ rest, date_parts_of work_no_title = [] :: rest)
  end.
Proof. apply (title_placeholder work_no_title). reflexivity. Defined.

(** C10 fails on the code: [item.get("title", ["No title"])[0]] and
    [item.get("license", [{}])[0]] supply a default for a missing key only.
    A work whose ["title"] (or ["license"]) key holds the empty list makes
    the normalisation raise [IndexError], and the run ends without reading or
    writing the store, although [angew_scraper.py] normalises the same work. *)
Theorem normalization_raises_on_empty_list :
  w_title work_empty_title = Some []
  ∧ Scaper.paper_of_item work_empty_title = Raise IndexError
  ∧ w_license work_empty_license = Some []
  ∧ Scaper.paper_of_item work_empty_license = Raise IndexError
  ∧ Scaper.main (env_of [work_xyz; work_empty_title] europepmc_up) fresh
    = (emit [Says Searching] fresh, Raise IndexError)
  ∧ ∃ r, Scraper.entry_of_item work_empty_title "10.1/abc" = Ok r.
Proof. split_and!; try reflexivity. by eexists. Qed.

(** * Further properties of the two scripts *)

(** X1 — No header-only file.  Started without a store file, a run of either
    script either leaves no file behind and reports no addition, or creates
    the file as the header followed by the rows it reports, at least one. *)
Theorem no_file_without_rows (e : Scaper.env) (o : http_outcome crossref_data)
    (tr : list event) :
  let w := {| fs := None; trace := tr |} in
  (fs (Scaper.main e w).1 = None ∧ added (Scaper.main e w).1 = O
   ∨ ∃ rows, fs (Scaper.main e w).1 = Some (Scaper.fieldnames :: rows)
             ∧ rows ≠ [] ∧ length rows = added (Scaper.main e w).1)
  ∧ (fs (Scraper.main o w).1 = None ∧ added (Scraper.main o w).1 = O
     ∨ ∃ rows, fs (Scraper.main o w).1 = Some (Scraper.fieldnames :: rows)
               ∧ rows ≠ [] ∧ length rows = added (Scraper.main o w).1).
Proof.
  cbv zeta. split.
  - unfold Scaper.main. cbv zeta.
    destruct (Scaper.find_open_access_angew_papers_from _) as [papers|x].
    2:{ left. cbn [fst]. by rewrite added_emit. }
    unfold Scaper.save_results_to_csv. rewrite fs_emit. cbn [fs column].
    destruct (Scaper.new_entries_of _ papers) as [|p new] eqn:Hnew; cbn [fst].
    { left. by rewrite added_emit. }
    right. exists (Scaper.written_rows e (p :: new)). split_and!; [done| |].
    + intros Hnil. apply (f_equal length) in Hnil.
      by rewrite written_rows_length in Hnil.
    + rewrite written_rows_length. unfold added. cbn [trace].
      by rewrite !app_assoc, last_snoc.
  - unfold Scraper.main. cbv zeta.
    destruct (Scraper.get_crossref_data o) as [data|x].
    2:{ left. cbn [fst]. by rewrite added_emit. }
    rewrite fs_emit. cbn [fs Scraper.load_existing_dois column mbind result_bind].
    destruct (Scraper.collect _ (items_of data)) as [[|r rs]|x]; cbn [fst].
    + left. by rewrite added_emit.
    + right. exists (Scraper.row_of <$> r :: rs). split_and!; [done|done|].
      rewrite length_fmap. unfold added. cbn [trace]. by rewrite last_snoc.
    + left. by rewrite added_emit.
Qed.



(** X3 — A run that raises has changed nothing.  Whenever a run of either
    script ends with an exception (failed request, undecodable body,
    [IndexError] of the normalisation, [KeyError] of the store's column), the
    world is the one before the run plus the first notice: the store is
    untouched and Europe PMC was not queried. *)
Theorem raising_run_changes_nothing (e : Scaper.env)
    (o : http_outcome crossref_data) (wa wb : world) (xa xb : exn) :
  (Scaper.main e wa).2 = Raise xa →
  (Scraper.main o wb).2 = Raise xb →
  (Scaper.main e wa).1 = emit [Says Searching] wa
  ∧ (Scraper.main o wb).1 = emit [Says Searching] wb.
Proof.
  intros Ha Hb. split.
  - revert Ha. unfold Scaper.main. cbv zeta.
    destruct (Scaper.find_open_access_angew_papers_from _) as [papers|x];
      [|done].
    unfold Scaper.save_results_to_csv.
    destruct (column "doi" _) as [vals|x]; [|done].
    by destruct (Scaper.new_entries_of _ papers).
  - revert Hb. unfold Scraper.main. cbv zeta.
    destruct (Scraper.get_crossref_data o) as [data|x]; [|done].
    destruct (Scraper.load_existing_dois _) as [ex|x]; [|done].
    by destruct (Scraper.collect ex (items_of data)) as [[|r rs]|x].
Qed.

Lemma raising_run_changes_nothing_witness :
  (Scaper.main (env_of [work_xyz; work_empty_title] europepmc_up) scaper_store).1
  = emit [Says Searching] scaper_store
  ∧ (Scraper.main (answer [work_xyz; work_no_date]) scraper_store).1
    = emit [Says Searching] scraper_store.
Proof.
  apply (raising_run_changes_nothing
           (env_of [work_xyz; work_empty_title] europepmc_up)
           (answer [work_xyz; work_no_date]) scaper_store scraper_store
           IndexError IndexError); reflexivity.
Defined.

Lemma for_each_papers_raise (ws : list work) (x : exn) :
  for_each Scaper.paper_of_item ws = Raise x →
  x = IndexError ∧ ∃ i, i ∈ ws ∧ bad_shape i.
Proof.
  induction ws as [|i ws IH]; [done|]. cbn.
  destruct (Scaper.paper_of_item i) as [p|y] eqn:Hp; cbn.
  - destruct (for_each Scaper.paper_of_item ws) as [ps|y] eqn:Hps; cbn; [done|].
    intros [= ->]. destruct (IH eq_refl) as [-> (j & Hj & Hbad)].
    split; [done|]. exists j. split; [by right|done].
  - intros [= ->]. apply paper_of_item_raises in Hp as [-> Hbad].
    split; [done|]. exists i. split; [by left|done].
Qed.

Lemma for_each_papers_ok (ws : list work) :
  (∀ i, i ∈ ws → ¬ bad_shape i) →
  ∃ papers, for_each Scaper.paper_of_item ws = Ok papers
            ∧ length papers = length ws.
Proof.
  induction ws as [|i ws IH]; intros Hgood; [by exists []|]. cbn.
  destruct (Scaper.paper_of_item i) as [p|y] eqn:Hp; cbn.
  - destruct IH as (ps & -> & Hlen).
    { intros j Hj. apply Hgood. by right. }
    cbn. exists (p :: ps). by rewrite <- Hlen.
  - apply paper_of_item_raises in Hp as [_ Hbad].
    destruct (Hgood i); [by left|done].
Qed.

Lemma for_each_ok_each {A B} (f : A → result B) (xs : list A) (ys : list B)
    (a : A) :
  for_each f xs = Ok ys → a ∈ xs → ∃ y, f a = Ok y.
Proof.
  revert ys. induction xs as [|k xs IH]; intros ys Hf Ha;
    [by apply elem_of_nil in Ha|].
  cbn in Hf. destruct (f k) as [y|] eqn:Hk; cbn in Hf; [|done].
  destruct (for_each f xs) as [zs|] eqn:Hxs; cbn in Hf; [|done].
  apply elem_of_cons in Ha as [->|Ha]; [by exists y | by eapply IH].
Qed.

(** X4 — One ill-shaped work aborts [angew_scaper.py].  With a page fetched
    and decoded, the whole page is normalised before anything else: if any
    work of it, recorded already or not, has an empty title list, an empty
    license list or date parts without a first element, the run ends with
    [IndexError] and the world unchanged but for the first notice; otherwise
    every work of the page becomes a paper. *)
Theorem ill_shaped_work_aborts_scaper (e : Scaper.env) (w : world)
    (data : crossref_data) :
  get_json (Scaper.crossref e) = Ok data →
  ((∃ i, i ∈ items_of data ∧ bad_shape i) →
   Scaper.main e w = (emit [Says Searching] w, Raise IndexError))
  ∧ ((∀ i, i ∈ items_of data → ¬ bad_shape i) →
     ∃ papers,
       Scaper.find_open_access_angew_papers_from (Scaper.crossref e) = Ok papers
       ∧ length papers = length (items_of data)).
Proof.
  intros Hget. unfold Scaper.main, Scaper.find_open_access_angew_papers_from.
  rewrite Hget. cbn. split.
  - intros (i & Hi & Hbad).
    destruct (for_each Scaper.paper_of_item (items_of data)) as [papers|x] eqn:Hf.
    + destruct (for_each_ok_each _ _ _ _ Hf Hi) as [p Hp].
      assert (Scaper.paper_of_item i = Raise IndexError) as Hraise
        by by apply paper_of_item_raises.
      congruence.
    + by apply for_each_papers_raise in Hf as [-> _].
  - apply for_each_papers_ok.
Qed.

Lemma ill_shaped_work_aborts_scaper_witness :
  ((∃ i, i ∈ [work_abc; work_empty_license] ∧ bad_shape i) →
   Scaper.main (env_of [work_abc; work_empty_license] europepmc_up) scaper_store
   = (emit [Says Searching] scaper_store, Raise IndexError))
  ∧ ((∀ i, i ∈ [work_abc; work_empty_license] → ¬ bad_shape i) →
     ∃ papers,
       Scaper.find_open_access_angew_papers_from
         (answer [work_abc; work_empty_license]) = Ok papers
       ∧ length papers = length [work_abc; work_empty_license]).
Proof.
  apply (ill_shaped_work_aborts_scaper
           (env_of [work_abc; work_empty_license] europepmc_up) scaper_store
           {| message := Some {| items := Some [work_abc; work_empty_license] |} |}).
  reflexivity.
Defined.

Lemma entry_of_item_raises (i : work) (doi : string) (x : exn) :
  Scraper.entry_of_item i doi = Raise x ↔ x = IndexError ∧ date_parts_of i = [].
Proof.
  unfold Scraper.entry_of_item.
  destruct (date_parts_of i) as [|parts rest]; cbn.
  - split; [by intros [= <-] | by intros [-> _]].
  - split; [done | by intros [_ ?]].
Qed.

(** X5 — [angew_scraper.py] normalises new works only.  The loop of [main]
    raises exactly when some work of the page with a non-empty identifier
    that is not recorded has an empty list of date parts, and then with
    [IndexError]; works that are skipped are never looked at, so their shape
    cannot fail the run. *)
Theorem scraper_loop_raises_iff (existing_dois : gset (option string))
    (ws : list work) (x : exn) :
  Scraper.collect existing_dois ws = Raise x ↔
  x = IndexError
  ∧ ∃ i, i ∈ ws ∧ doi_of i ≠ "" ∧ (Some (doi_of i) ∉ existing_dois)
         ∧ date_parts_of i = [].
Proof.
  revert x. induction ws as [|i ws IH]; intros x.
  { split; [done|]. by intros [_ (i & ?%elem_of_nil & _)]. }
  assert ((∃ j, j ∈ ws ∧ doi_of j ≠ "" ∧ (Some (doi_of j) ∉ existing_dois)
                ∧ date_parts_of j = []) →
          Scraper.collect existing_dois ws = Raise IndexError) as Hws.
  { intros Hj. by apply IH. }
  cbn [Scraper.collect]. fold (doi_of i).
  destruct (truthy_str (doi_of i)) eqn:Ht; cbn [negb orb].
  - apply truthy_str_spec in Ht. case_bool_decide as Hin.
    + rewrite IH. split.
      * intros [-> (j & Hj & Hrest)]. split; [done|].
        exists j. split; [by right|done].
      * intros [-> (j & Hj & Hne & Hfresh & Hd)]. split; [done|].
        apply elem_of_cons in Hj as [->|Hj]; [done|]. by exists j.
    + destruct (Scraper.entry_of_item i (doi_of i)) as [r|y] eqn:Hr; cbn.
      * assert (date_parts_of i ≠ []) as Hparts.
        { intros Hd.
          assert (Scraper.entry_of_item i (doi_of i) = Raise IndexError)
            by by apply entry_of_item_raises.
          congruence. }
        destruct (Scraper.collect existing_dois ws) as [rs|y] eqn:Hrs; cbn.
        -- split; [done|].
           intros [-> (j & Hj & Hne & Hfresh & Hd)].
           apply elem_of_cons in Hj as [->|Hj]; [done|].
           assert (Ok rs = Raise IndexError) as Habs; [|done].
           apply Hws. by exists j.
        -- split.
           ++ intros [= ->].
              destruct (proj1 (IH _) eq_refl) as [-> (j & Hj & Hrest)].
              split; [done|]. exists j. split; [by right|done].
           ++ intros [-> _]. by destruct (proj1 (IH _) eq_refl) as [-> _].
      * apply entry_of_item_raises in Hr as [-> Hd]. split.
        -- intros [= <-]. split; [done|]. exists i. split; [by left|done].
        -- by intros [-> _].
  - rewrite IH. split.
    + intros [-> (j & Hj & Hrest)]. split; [done|].
      exists j. split; [by right|done].
    + intros [-> (j & Hj & Hne & Hfresh & Hd)]. split; [done|].
      apply elem_of_cons in Hj as [->|Hj]; [|by exists j].
      apply truthy_str_spec in Hne. congruence.
Qed.



Section ForeignColumn.
Variables (fieldnames : list string) (k : string).
Hypothesis getitem_k : ∀ r, getitem (dict_row fieldnames r) k = Raise KeyError.


End ForeignColumn.



(** X7 — What a successful run appends.  The rows a successful run of
    [angew_scaper.py] appends carry, in page order, exactly the identifiers
    of the page that the store's [doi] column did not hold before the run
    (a missing identifier being [""]); for [angew_scraper.py], exactly the
    non-empty identifiers of the page that the [DOI] column did not hold.  A
    recorded identifier is never written again, and no new one is left
    out. *)
Theorem appended_identifiers (e : Scaper.env) (o : http_outcome crossref_data)
    (wa wb : world) (vals_a vals_b : list (option string)) :
  column "doi" (fs wa) = Ok vals_a →
  (Scaper.main e wa).2 = Ok () →
  column "DOI" (fs wb) = Ok vals_b →
  (Scraper.main o wb).2 = Ok () →
  (∃ rows,
     fs (Scaper.main e wa).1
     = match rows with
       | [] => fs wa
       | _ => append_records Scaper.fieldnames rows (fs wa)
       end
     ∧ (fun r => r !! 2%nat) <$> rows
       = Some <$> filter (fun d => Some d ∉ vals_a)
                         (doi_of <$> page (Scaper.crossref e)))
  ∧ (∃ rows,
       fs (Scraper.main o wb).1
       = match rows with
         | [] => fs wb
         | _ => append_records Scraper.fieldnames rows (fs wb)
         end
       ∧ (fun r => r !! 2%nat) <$> rows
         = Some <$> filter (fun d => d ≠ "" ∧ Some d ∉ vals_b)
                           (doi_of <$> page o)).
Proof.
  intros Hca Hra Hcb Hrb. split.
  - revert Hra. unfold Scaper.main. cbv zeta.
    destruct (Scaper.find_open_access_angew_papers_from _) as [papers|x] eqn:Hf;
      [intros _|done].
    unfold Scaper.save_results_to_csv. rewrite fs_emit, Hca.
    set (new := Scaper.new_entries_of (list_to_set vals_a) papers).
    exists (Scaper.written_rows e new). split.
    + destruct new as [|p new']; [done|]. cbn [fst fs].
      by rewrite written_rows_imap, imap_cons.
    + rewrite written_rows_ids, (list_fmap_compose Scaper.doi Some).
      unfold new. rewrite new_entries_dois, (find_page_dois _ _ Hf).
      f_equal. apply list_filter_iff. intros d.
      by rewrite elem_of_list_to_set.
  - revert Hrb. unfold Scraper.main, Scraper.get_crossref_data,
      Scraper.load_existing_dois, page. cbv zeta.
    destruct (get_json o) as [data|x]; [|done].
    rewrite fs_emit, Hcb. cbn [mbind result_bind].
    destruct (Scraper.collect _ (items_of data)) as [es|x] eqn:Hc; [intros _|done].
    exists (Scraper.row_of <$> es). split.
    + by destruct es.
    + rewrite row_of_ids, (list_fmap_compose Scraper.DOI Some).
      rewrite (collect_dois _ _ _ Hc).
      f_equal. apply list_filter_iff. intros d.
      by rewrite elem_of_list_to_set.
Qed.

Lemma appended_identifiers_witness :
  (∃ rows,
     fs (Scaper.main (env_of [work_abc; work_no_doi; work_xyz] europepmc_up)
           scaper_store).1
     = match rows with
       | [] => fs scaper_store
       | _ => append_records Scaper.fieldnames rows (fs scaper_store)
       end
     ∧ (fun r => r !! 2%nat) <$> rows
       = Some <$> filter (fun d => Some d ∉ [Some "10.1/abc"])
                         (doi_of <$> page (answer [work_abc; work_no_doi; work_xyz])))
  ∧ (∃ rows,
       fs (Scraper.main (answer [work_abc; work_no_doi; work_xyz]) scraper_store).1
       = match rows with
         | [] => fs scraper_store
         | _ => append_records Scraper.fieldnames rows (fs scraper_store)
         end
       ∧ (fun r => r !! 2%nat) <$> rows
         = Some <$> filter (fun d => d ≠ "" ∧ Some d ∉ [Some "10.1/abc"])
                           (doi_of <$> page (answer [work_abc; work_no_doi; work_xyz]))).
Proof.
  apply (appended_identifiers
           (env_of [work_abc; work_no_doi; work_xyz] europepmc_up)
           (answer [work_abc; work_no_doi; work_xyz])
           scaper_store scraper_store [Some "10.1/abc"] [Some "10.1/abc"]);
    reflexivity.
Defined.

(** Over the records: after a run that returns normally the identifier
    column holds the identifier of every work of the page
    ([angew_scaper.py]), respectively of every work of the page with a
    non-empty identifier ([angew_scraper.py]). *)
Lemma page_in_records (e : Scaper.env) (o : http_outcome crossref_data)
    (wa wb : world) :
  store_ok Scaper.fieldnames (fs wa) →
  (Scaper.main e wa).2 = Ok () →
  store_ok Scraper.fieldnames (fs wb) →
  (Scraper.main o wb).2 = Ok () →
  (∃ ids, column "doi" (fs (Scaper.main e wa).1) = Ok ids
          ∧ ∀ i, i ∈ page (Scaper.crossref e) → Some (doi_of i) ∈ ids)
  ∧ (∃ ids, column "DOI" (fs (Scraper.main o wb).1) = Ok ids
            ∧ ∀ i, i ∈ page o → doi_of i ≠ "" → Some (doi_of i) ∈ ids).
Proof.
  intros Hoka Hra Hokb Hrb. split.
  - exists (identifiers (fs (Scaper.main e wa).1)). split.
    { apply (column_store_ok _ _ getitem_doi). by apply scaper_main_store_ok. }
    revert Hra. unfold Scaper.main. cbv zeta.
    destruct (Scaper.find_open_access_angew_papers_from _) as [papers|x] eqn:Hf;
      [intros _|done].
    rewrite save_identifiers by done. rewrite fs_emit.
    intros i Hi. rewrite elem_of_app.
    destruct (decide (Some (doi_of i) ∈ identifiers (fs wa))) as [|Hfresh];
      [by left|right].
    assert (doi_of i ∈ Scaper.doi <$> papers) as Hd.
    { rewrite (find_page_dois _ _ Hf). by apply list_elem_of_fmap_2. }
    apply list_elem_of_fmap in Hd as (p & Hp & Hin). rewrite Hp.
    apply (list_elem_of_fmap_2 (fun p => Some (Scaper.doi p))).
    apply list_elem_of_filter. split; [|done].
    rewrite elem_of_list_to_set. by rewrite <- Hp.
  - exists (identifiers (fs (Scraper.main o wb).1)). split.
    { apply (column_store_ok _ _ getitem_DOI). by apply scraper_main_store_ok. }
    rewrite scraper_main_fs by done.
    revert Hrb. unfold Scraper.main, Scraper.get_crossref_data,
      Scraper.load_existing_dois, page. cbv zeta.
    destruct (get_json o) as [data|x]; [|done].
    rewrite fs_emit, (column_store_ok _ _ getitem_DOI _ Hokb).
    cbn [mbind result_bind].
    destruct (Scraper.collect _ (items_of data)) as [es|x] eqn:Hc; [intros _|done].
    intros i Hi Hne.
    destruct (decide (Some (doi_of i) ∈ identifiers (fs wb))) as [Hold|Hfresh].
    { destruct es as [|r rs]; [done|].
      unfold Scraper.append_to_csv.
      rewrite (identifiers_append Scraper.fieldnames) by auto using row_of_nonblank.
      rewrite elem_of_app. by left. }
    assert (doi_of i ∈ Scraper.DOI <$> es) as Hd.
    { rewrite (collect_dois _ _ _ Hc). apply list_elem_of_filter.
      split; [|by apply list_elem_of_fmap_2].
      split; [done|]. by rewrite elem_of_list_to_set. }
    destruct es as [|r rs]; [by apply elem_of_nil in Hd|].
    unfold Scraper.append_to_csv.
    rewrite (identifiers_append Scraper.fieldnames) by auto using row_of_nonblank.
    rewrite row_of_ids, elem_of_app. right.
    apply list_elem_of_fmap in Hd as (r' & -> & Hin).
    by apply (list_elem_of_fmap_2 (fun r => Some (Scraper.DOI r))).
Qed.

(** X8 — After a successful run the page is recorded.  For a store in good
    order, when a run returns normally, the identifier column read from the
    file it leaves holds the identifier of every work of the page
    ([angew_scaper.py]), respectively of every work of the page with a
    non-empty identifier ([angew_scraper.py]). *)
Theorem page_recorded (e : Scaper.env) (o : http_outcome crossref_data)
    (ma mb : machine) :
  kept Scaper.fieldnames (file ma) →
  (ScaperOnDisk.main e ma).2 = Ok () →
  kept Scraper.fieldnames (file mb) →
  (ScraperOnDisk.main o mb).2 = Ok () →
  (∀ ids, read_column "doi" (file (ScaperOnDisk.main e ma).1) = Ok ids →
          ∀ i, i ∈ page (Scaper.crossref e) → Some (doi_of i) ∈ ids)
  ∧ (∀ ids, read_column "DOI" (file (ScraperOnDisk.main o mb).1) = Ok ids →
            ∀ i, i ∈ page o → doi_of i ≠ "" → Some (doi_of i) ∈ ids).
Proof.
  intros (Henda & sta & Hha & Hoka)%kept_holds Hra
         (Hendb & stb & Hhb & Hokb)%kept_holds Hrb.
  destruct (scaper_refines e ma sta Hha) as (Hres_a & _ & _).
  destruct (scraper_refines o mb stb Hhb) as (Hres_b & _ & _).
  rewrite Hra in Hres_a. rewrite Hrb in Hres_b.
  destruct (page_in_records e o {| fs := sta; trace := log ma |}
              {| fs := stb; trace := log mb |} Hoka (eq_sym Hres_a)
              Hokb (eq_sym Hres_b))
    as [(ids_a & Hca & Hpa) (ids_b & Hcb & Hpb)].
  split.
  - intros ids Hread.
    destruct (scaper_run_holds e ma sta Henda Hha) as [Hafter _].
    { by eapply read_column_readable. }
    rewrite (read_column_holds _ _ _ Hafter), Hca in Hread.
    by injection Hread as <-.
  - intros ids Hread.
    destruct (scraper_run_holds o mb stb Hendb Hhb) as [Hafter _].
    { by eapply read_column_readable. }
    rewrite (read_column_holds _ _ _ Hafter), Hcb in Hread.
    by injection Hread as <-.
Qed.

Lemma page_recorded_witness :
  read_column "doi"
    (file (ScaperOnDisk.main (env_of [work_xyz; work_no_doi] europepmc_up)
             (on_disk scaper_store)).1)
  = Ok [Some "10.1/abc"; Some "10.1/xyz"; Some ""]
  ∧ (∀ i, i ∈ page (answer [work_xyz; work_no_doi]) →
          Some (doi_of i) ∈ [Some "10.1/abc"; Some "10.1/xyz"; Some ""])
  ∧ read_column "DOI"
      (file (ScraperOnDisk.main (answer [work_xyz; work_no_doi])
               (on_disk fresh)).1)
    = Ok [Some "10.1/xyz"]
  ∧ (∀ i, i ∈ page (answer [work_xyz; work_no_doi]) →
          doi_of i ≠ "" → Some (doi_of i) ∈ [Some "10.1/xyz"]).
Proof.
  assert (kept Scaper.fieldnames (file (on_disk scaper_store))) as Ha.
  { split; [split; vm_compute; reflexivity|].
    eexists. vm_compute. reflexivity. }
  pose proof (page_recorded (env_of [work_xyz; work_no_doi] europepmc_up)
                (answer [work_xyz; work_no_doi])
                (on_disk scaper_store) (on_disk fresh)
                Ha eq_refl I eq_refl) as [Hpa Hpb].
  assert (read_column "doi"
            (file (ScaperOnDisk.main
                     (env_of [work_xyz; work_no_doi] europepmc_up)
                     (on_disk scaper_store)).1)
          = Ok [Some "10.1/abc"; Some "10.1/xyz"; Some ""]) as Hra
    by (vm_compute; reflexivity).
  assert (read_column "DOI"
            (file (ScraperOnDisk.main (answer [work_xyz; work_no_doi])
                     (on_disk fresh)).1)
          = Ok [Some "10.1/xyz"]) as Hrb
    by (vm_compute; reflexivity).
  split; [exact Hra|]. split; [exact (Hpa _ Hra)|].
  split; [exact Hrb|]. exact (Hpb _ Hrb).
Defined.

Lemma enrich_events_all (e : Scaper.env) (new : list Scaper.paper) :
  snd <$> imap (Scaper.enrich e) new = enrich_events <$> new.
Proof.
  rewrite fmap_imap, <- imap_const. apply imap_ext. intros i p _. cbn.
  unfold Scaper.enrich, enrich_events. by destruct (Scaper.lacks_abstract p).
Qed.

Lemma queries_app (a b : list event) : queries (a ++ b) = queries a ++ queries b.
Proof. apply omap_app. Qed.

Lemma pauses_app (a b : list event) : pauses (a ++ b) = (pauses a + pauses b)%nat.
Proof. unfold pauses. by rewrite omap_app, length_app. Qed.

Lemma queries_enrich (new : list Scaper.paper) :
  queries (concat (enrich_events <$> new))
  = Scaper.doi <$> filter (fun p => Scaper.lacks_abstract p = true) new
  ∧ pauses (concat (enrich_events <$> new))
    = length (filter (fun p => Scaper.lacks_abstract p = true) new).
Proof.
  induction new as [|p new [IHq IHp]]; [done|].
  rewrite fmap_cons, filter_cons. cbn [concat].
  rewrite queries_app, pauses_app, IHq, IHp.
  unfold enrich_events. case_decide as Hl.
  - by rewrite Hl.
  - by destruct (Scaper.lacks_abstract p).
Qed.

(** X9 — Which lookups [angew_scaper.py] makes.  With a page normalised and
    the store read, the run queries Europe PMC once for every new entry
    without an abstract, in order, for that entry's identifier, and pauses
    once after each query; entries that are recorded already or carry an
    abstract cause no query. *)
Theorem lookups_made (e : Scaper.env) (w : world) (papers : list Scaper.paper)
    (vals : list (option string)) :
  Scaper.find_open_access_angew_papers_from (Scaper.crossref e) = Ok papers →
  column "doi" (fs w) = Ok vals →
  queries (trace (Scaper.main e w).1)
  = queries (trace w)
    ++ (Scaper.doi <$> filter (fun p => Scaper.lacks_abstract p = true)
                         (Scaper.new_entries_of (list_to_set vals) papers))
  ∧ pauses (trace (Scaper.main e w).1)
    = (pauses (trace w)
       + length (filter (fun p => Scaper.lacks_abstract p = true)
                   (Scaper.new_entries_of (list_to_set vals) papers)))%nat.
Proof.
  intros Hfind Hcol. unfold Scaper.main. cbv zeta. rewrite Hfind.
  unfold Scaper.save_results_to_csv. rewrite fs_emit, Hcol.
  destruct (Scaper.new_entries_of _ papers) as [|p new] eqn:Hnew; cbn [fst trace].
  - unfold emit. cbn [trace]. rewrite !queries_app, !pauses_app. cbn.
    by rewrite !app_nil_r, !Nat.add_0_r.
  - rewrite enrich_events_all.
    destruct (queries_enrich (p :: new)) as [Hq Hp].
    unfold emit. cbn [trace].
    rewrite !queries_app, !pauses_app, Hq, Hp. cbn [queries pauses omap].
    cbn. rewrite !app_nil_r. split; [done|lia].
Qed.

Lemma lookups_made_witness :
  queries (trace (Scaper.main (env_of [work_abc; work_xyz; work_no_title]
                                 europepmc_up) fresh).1)
  = queries (trace fresh) ++ ["10.1/abc"; "10.1/abc"]
  ∧ pauses (trace (Scaper.main (env_of [work_abc; work_xyz; work_no_title]
                                  europepmc_up) fresh).1)
    = (pauses (trace fresh) + 2)%nat.
Proof.
  exact (lookups_made (env_of [work_abc; work_xyz; work_no_title] europepmc_up)
           fresh _ [] eq_refl eq_refl).
Defined.

Lemma or_sentinel_nonempty (a : option string) : Scaper.or_sentinel a ≠ "".
Proof.
  unfold Scaper.or_sentinel. destruct a as [s|]; [|done].
  destruct (truthy_str s) eqn:Hs; [|done]. by apply truthy_str_spec.
Qed.

(** X10 — The row of a new entry.  Let the run of [angew_scaper.py] fetch
    [papers] and let [p] be its [i]-th new entry.  What the run appends to
    the bytes of the file is what [csv.writer] writes for its rows (behind
    the header, if there was no file), and the [i]-th of these rows is the
    row of [p]: it has the seven fields of the header, carries the
    identifier of [p] and the clock reading of its own write, and its
    abstract field is never empty: it is the inline abstract when [p] has
    one, and otherwise the text Europe PMC gave for it when that is not
    empty. *)
Theorem row_of_new_entry (e : Scaper.env) (m : machine)
    (papers : list Scaper.paper) (vals : list (option string))
    (i : nat) (p : Scaper.paper) :
  Scaper.find_open_access_angew_papers_from (Scaper.crossref e) = Ok papers →
  read_column "doi" (file m) = Ok vals →
  Scaper.new_entries_of (list_to_set vals) papers !! i = Some p →
  ∃ rows row a,
    file (ScaperOnDisk.main e m).1
    = append_rows Scaper.fieldnames rows (file m)
    ∧ rows !! i = Some row
    ∧ length row = length Scaper.fieldnames
    ∧ row !! 2%nat = Some (Scaper.doi p)
    ∧ row !! 6%nat = Some (Scaper.now e i)
    ∧ row !! 5%nat = Some a
    ∧ a ≠ ""
    ∧ (∀ s, Scaper.abstract p = Some s → s ≠ "" → a = s)
    ∧ (∀ s, Scaper.lacks_abstract p = true →
            Scaper.get_abstract_from_europepmc (Scaper.europepmc e i) (Scaper.doi p)
            = Some s →
            s ≠ "" → a = s).
Proof.
  intros Hfind Hcol Hi.
  unfold ScaperOnDisk.main. cbv zeta. rewrite Hfind.
  unfold ScaperOnDisk.save_results_to_csv. cbn [file say]. rewrite Hcol.
  destruct (Scaper.new_entries_of _ papers) as [|q new] eqn:Hnew; [done|].
  cbn [fst file].
  pose proof (written_rows_lookup e _ _ _ Hi) as Hrow.
  exists (Scaper.written_rows e (q :: new)),
         (Scaper.row_of (Scaper.enrich e i p).1 (Scaper.now e i)),
         (default "" (Scaper.abstract (Scaper.enrich e i p).1)).
  split_and!; try done.
  - unfold Scaper.row_of. cbn. by rewrite doi_enrich.
  - unfold Scaper.enrich, Scaper.lacks_abstract.
    destruct (Scaper.abstract p) as [s|] eqn:Hp; cbn.
    + destruct (truthy_str s) eqn:Hs; cbn.
      * rewrite Hp. cbn. by apply truthy_str_spec.
      * apply or_sentinel_nonempty.
    + apply or_sentinel_nonempty.
  - intros s Hs Hne. unfold Scaper.enrich, Scaper.lacks_abstract. rewrite Hs.
    apply truthy_str_spec in Hne. rewrite Hne. cbn. by rewrite Hs.
  - intros s Hl Hlook Hne. unfold Scaper.enrich. rewrite Hl. cbn.
    rewrite Hlook. cbn. apply truthy_str_spec in Hne. by rewrite Hne.
Qed.

Lemma row_of_new_entry_witness :
  ∃ rows row a,
    file (ScaperOnDisk.main (env_of [work_abc; work_xyz] europepmc_up)
            (on_disk scaper_store)).1
    = append_rows Scaper.fieldnames rows (file (on_disk scaper_store))
    ∧ rows !! 0%nat = Some row
    ∧ length row = length Scaper.fieldnames
    ∧ row !! 2%nat = Some "10.1/xyz"
    ∧ row !! 6%nat = Some "2025-07-02 09:00"
    ∧ row !! 5%nat = Some a
    ∧ a ≠ ""
    ∧ (∀ s, Some "<jats:p>Known.</jats:p>" = Some s → s ≠ "" → a = s)
    ∧ (∀ s, false = true →
            Scaper.get_abstract_from_europepmc (europepmc_up 0%nat) "10.1/xyz"
            = Some s →
            s ≠ "" → a = s).
Proof.
  exact (row_of_new_entry (env_of [work_abc; work_xyz] europepmc_up)
           (on_disk scaper_store) _ [Some "10.1/abc"] 0%nat _
           eq_refl eq_refl eq_refl).
Defined.

(** ** Text that can be written and read *)

Lemma utf8_step_ascii (st : utf8_state) (c : ascii) :
  (nat_of_ascii c < 128)%nat →
  utf8_step st c = match st with U_start => U_start | _ => U_invalid end.
Proof.
  intros Hc. unfold utf8_step, continuation.
  destruct st; cbv zeta;
    repeat (match goal with
            | |- context [(?a <? ?b)%nat] => destruct (Nat.ltb_spec a b)
            | |- context [(?a <=? ?b)%nat] => destruct (Nat.leb_spec a b)
            | |- context [(?a =? ?b)%nat] => destruct (Nat.eqb_spec a b)
            end; try lia; cbn [andb]); done.
Qed.

Lemma valid_utf8_ascii (c : ascii) (s : string) :
  (nat_of_ascii c < 128)%nat →
  valid_utf8 (String c s) = valid_utf8 s.
Proof.
  intros Hc. unfold valid_utf8. cbn [utf8_run].
  by rewrite utf8_step_ascii.
Qed.

Lemma utf8_run_double_quotes (st : utf8_state) (s : string) :
  utf8_run st (double_quotes s) = utf8_run st s.
Proof.
  revert st. induction s as [|c s IH]; intros st; [done|].
  cbn [double_quotes].
  destruct (Ascii.eqb_spec c quotechar) as [->|_]; [|cbn; apply IH].
  cbn [utf8_run]. rewrite IH.
  rewrite !(utf8_step_ascii _ quotechar) by (vm_compute; lia).
  by destruct st.
Qed.

Lemma valid_utf8_both (a b : string) :
  valid_utf8 a = true → valid_utf8 b = true → valid_utf8 (a +:+ b) = true.
Proof. intros Ha Hb. by rewrite valid_utf8_app. Qed.

Lemma valid_write_field (quoted : bool) (s : string) :
  valid_utf8 s = true → valid_utf8 (write_field quoted s) = true.
Proof.
  intros Hs. destruct quoted; [|done]. unfold write_field.
  rewrite string_app_cons, valid_utf8_ascii by (vm_compute; lia).
  apply valid_utf8_both; [|done].
  unfold valid_utf8 in *. by rewrite utf8_run_double_quotes.
Qed.

Lemma valid_row_tail (fs : list string) :
  encoded fs = true → valid_utf8 (row_tail fs) = true.
Proof.
  induction fs as [|f fs IH]; [done|].
  intros [Hf Hfs]%andb_true_iff. cbn [row_tail].
  rewrite valid_utf8_ascii by (vm_compute; lia).
  apply valid_utf8_both; [by apply valid_write_field|by apply IH].
Qed.

Lemma valid_writerow (row : list string) :
  encoded row = true → valid_utf8 (writerow row) = true.
Proof.
  intros Hrow. destruct row as [|f fs]; [done|].
  destruct (decide (f :: fs = [EmptyString])) as [[= -> ->]|Hne]; [done|].
  rewrite writerow_unfold by done.
  apply andb_true_iff in Hrow as [Hf Hfs].
  apply valid_utf8_both; [by apply valid_write_field|by apply valid_row_tail].
Qed.

Lemma valid_writerows (rows : list (list string)) :
  forallb encoded rows = true → valid_utf8 (writerows rows) = true.
Proof.
  induction rows as [|r rows IH]; [done|].
  intros [Hr Hrows]%andb_true_iff. rewrite writerows_cons.
  apply valid_utf8_both; [by apply valid_writerow|by apply IH].
Qed.

Lemma read_records_raises (lines : list string) (p : parser) (x : exn) :
  (read_records p lines).2 = Raise x → x = csv_Error.
Proof.
  revert p. induction lines as [|l lines IH]; intros p; [done|].
  cbn [read_records]. unfold parse_line.
  destruct (parse_chars l p) as [q|y] eqn:Hl; cbn [mbind result_bind].
  - case_bool_decide; cbn [snd]; apply IH.
  - cbn. intros [= <-]. clear IH.
    revert p Hl. induction l as [|c l IHl]; intros p; [done|].
    cbn [parse_chars].
    destruct (parse_process_char c p) as [q|z] eqn:Hc; cbn [mbind result_bind].
    + apply IHl.
    + intros [= <-]. revert Hc.
      unfold parse_process_char, start_field, parse_add_char.
      by repeat (case_match; try done); intros [= <-].
Qed.

(** The exceptions that end the iteration over [csv.reader]. *)
Lemma csv_reader_stop (b : string) (x : exn) :
  (csv_reader b).2 = Some x → x = UnicodeDecodeError ∨ x = csv_Error.
Proof.
  unfold csv_reader, reader.
  destruct (read_records parse_reset (file_lines b).1) as [rs [p|y]] eqn:Hr;
    cbn [fst snd].
  - unfold file_lines, end_of_input.
    destruct (valid_utf8 b); cbn [snd].
    + by case_match.
    + intros [= <-]. by left.
  - intros [= <-]. right.
    apply (read_records_raises (file_lines b).1 parse_reset). by rewrite Hr.
Qed.

(** X11 — Rows written are read back.  Let a file be read without an
    exception and end with the line break of its last record (or let it be
    empty), and let rows of UTF-8 text be appended to it as [csv.writer]
    writes them.  If every field has at most 131072 characters, then
    [csv.reader] yields from the new file the records of the old one and
    then exactly the rows, field by field, whatever commas, quotes and line
    breaks the fields hold, and the last record is terminated again; if a
    field is longer, the reading ends with [csv.Error]. *)
Theorem rows_read_back (b : string) (recs rows : list (list string)) :
  terminated b → csv_reader b = (recs, None) →
  forallb encoded rows = true →
  (forallb fits rows = true →
     csv_reader (b +:+ writerows rows) = (recs ++ rows, None)
     ∧ terminated (b +:+ writerows rows))
  ∧ (forallb fits rows = false →
       (csv_reader (b +:+ writerows rows)).2 = Some csv_Error).
Proof.
  intros Hterm Hread Henc.
  pose proof (valid_writerows _ Henc) as Hv.
  split.
  - intros Hfit.
    pose proof (csv_reader_append_fits _ _ _ Hterm Hread Hfit Hv) as Hnew.
    split; [done|].
    by destruct (csv_reader_append _ _ _ _ Hterm Hread Hnew).
  - intros Hunfit.
    pose proof (csv_reader_terminated _ _ Hterm Hread) as Hrec.
    destruct Hterm as [Hends Hend].
    assert (valid_utf8 b = true) as Hb
      by (apply csv_reader_None; by rewrite Hread).
    rewrite csv_reader_valid by (by rewrite valid_utf8_app).
    unfold reader.
    rewrite readlines_app by auto using writerows_first.
    rewrite read_records_app, Hrec. cbn [fst snd].
    pose proof (read_writerows_unfit rows EmptyString Hunfit) as Hrows.
    rewrite string_app_nil_r in Hrows. by rewrite Hrows.
Qed.

Lemma rows_read_back_witness :
  csv_reader
    (writerows [Scraper.fieldnames]
     +:+ writerows
           [["Yes, no"; "Curie"; "10.1/q";
             "say " +:+ String quotechar ("hi" +:+ String quotechar "");
             "2024"; "one" +:+ String LF "two"]])
  = ([Scraper.fieldnames;
      ["Yes, no"; "Curie"; "10.1/q";
       "say " +:+ String quotechar ("hi" +:+ String quotechar "");
       "2024"; "one" +:+ String LF "two"]], None)
  ∧ terminated
      (writerows [Scraper.fieldnames]
       +:+ writerows
             [["Yes, no"; "Curie"; "10.1/q";
               "say " +:+ String quotechar ("hi" +:+ String quotechar "");
               "2024"; "one" +:+ String LF "two"]]).
Proof.
  refine (proj1 (rows_read_back (writerows [Scraper.fieldnames])
                   [Scraper.fieldnames] _ _ _ _) _).
  - split; vm_compute; reflexivity.
  - vm_compute. reflexivity.
  - vm_compute. reflexivity.
  - vm_compute. reflexivity.
Defined.

Lemma europepmc_try_text (o : http_outcome json) (s : string) :
  Scaper.europepmc_try o = Ok (Some s) → ∃ text, s = strip text.
Proof.
  destruct o as [|status [data|]]; cbn; [done| |by destruct (ok_status status)].
  destruct (ok_status status); cbn; [|done].
  destruct (py_get data "resultList" (JObj [])) as [rl|]; cbn; [|done].
  destruct (py_get rl "result" (JArr [])) as [results|]; cbn; [|done].
  destruct (truthy results); cbn; [|done].
  destruct (py_index0 results) as [r0|]; cbn; [|done].
  destruct (py_get r0 "abstractText" JNull) as [a|]; cbn; [|done].
  destruct (truthy a); cbn; [|done].
  destruct a as [| | |text| |]; cbn; try done.
  intros [= <-]. by exists text.
Qed.

Lemma strip_ends (text : string) :
  ¬ space_first (strip text) ∧ ¬ space_last (strip text).
Proof. by destruct (strip_trimmed text) as (l & r & _ & _ & _ & ? & ?). Qed.

(** X12 — Abstracts are trimmed.  The text [get_abstract_from_europepmc]
    returns, the inline abstract [angew_scaper.py] keeps for a paper (which
    is never empty) and the abstract [angew_scraper.py] puts in an entry
    neither begin nor end with a whitespace character, Unicode whitespace
    included. *)
Theorem abstracts_trimmed (service : string → http_outcome json) (doi : string)
    (item : work) :
  (∀ s, Scaper.get_abstract_from_europepmc service doi = Some s →
        ¬ space_first s ∧ ¬ space_last s)
  ∧ (∀ p a, Scaper.paper_of_item item = Ok p → Scaper.abstract p = Some a →
            ¬ space_first a ∧ ¬ space_last a ∧ a ≠ "")
  ∧ (∀ r, Scraper.entry_of_item item doi = Ok r →
          ¬ space_first (Scraper.Abstract r) ∧ ¬ space_last (Scraper.Abstract r)).
Proof.
  split_and!.
  - intros s. unfold Scaper.get_abstract_from_europepmc, try_except.
    destruct (Scaper.europepmc_try (service doi)) as [[t|]|] eqn:Htry; try done.
    intros [= <-]. apply europepmc_try_text in Htry as [text ->].
    apply strip_ends.
  - intros p a. unfold Scaper.paper_of_item.
    destruct (first (default ["No title"] (w_title item))); cbn; [|done].
    destruct (first (default [{| lic_URL := None |}] (w_license item))); cbn; [|done].
    destruct (first (date_parts_of item)) as [parts|]; cbn; [|done].
    destruct (first parts); cbn; [|done].
    intros [= <-]. cbn.
    destruct (truthy_str _) eqn:Ht; [|done].
    intros [= <-]. apply truthy_str_spec in Ht.
    by destruct (strip_ends (replace newline " " (default "" (w_abstract item)))).
  - intros r. unfold Scraper.entry_of_item.
    destruct (first (date_parts_of item)); cbn; [|done].
    intros [= <-]. cbn. apply strip_ends.
Qed.

Lemma occurs_replace_newline (s : string) :
  occurs (ascii_of_nat 10) (replace newline " " s) = false.
Proof.
  unfold replace. induction s as [|c s IH]; [done|].
  cbn [replace_from String.prefix newline].
  destruct (ascii_dec (ascii_of_nat 10) c) as [<-|Hne].
  - assert (String.prefix "" s = true) as -> by by destruct s.
    cbn [String.length Nat.sub]. cbn. apply IH.
  - cbn. rewrite IH, orb_false_r. by apply Ascii.eqb_neq.
Qed.

Lemma occurs_app (c : ascii) (a b : string) :
  occurs c (a +:+ b) = occurs c a || occurs c b.
Proof.
  induction a as [|x a IH]; [done|].
  rewrite string_app_cons. cbn. by rewrite IH, orb_assoc.
Qed.

Lemma occurs_lstrip (c : ascii) (s : string) :
  occurs c s = false → occurs c (lstrip s) = false.
Proof.
  destruct (lstrip_spec s) as (l & _ & Hs & _). rewrite Hs at 1.
  rewrite occurs_app. by intros [_ ?]%orb_false_iff.
Qed.

Lemma occurs_rstrip (c : ascii) (s : string) :
  occurs c s = false → occurs c (rstrip s) = false.
Proof.
  destruct (rstrip_spec s) as (r & _ & Hs & _). rewrite Hs at 1.
  rewrite occurs_app. by intros [? _]%orb_false_iff.
Qed.

(** X13 — Inline abstracts are one line.  The abstract [angew_scaper.py]
    keeps from Crossref contains no line feed: each one was replaced by a
    space before the text was stripped. *)
Theorem inline_abstract_one_line (item : work) (p : Scaper.paper) (a : string) :
  Scaper.paper_of_item item = Ok p →
  Scaper.abstract p = Some a →
  occurs (ascii_of_nat 10) a = false.
Proof.
  unfold Scaper.paper_of_item.
  destruct (first (default ["No title"] (w_title item))); cbn; [|done].
  destruct (first (default [{| lic_URL := None |}] (w_license item))); cbn; [|done].
  destruct (first (date_parts_of item)) as [parts|]; cbn; [|done].
  destruct (first parts); cbn; [|done].
  intros [= <-]. cbn.
  destruct (truthy_str _); [|done].
  intros [= <-]. unfold strip.
  apply occurs_rstrip, occurs_lstrip, occurs_replace_newline.
Qed.

Lemma inline_abstract_one_line_witness :
  occurs (ascii_of_nat 10) "First line, second line." = false.
Proof.
  exact (inline_abstract_one_line work_two_lines _ _ eq_refl eq_refl).
Defined.

(** Over the records: after a run that returned normally a further run on
    the same Crossref answer returns normally as well, prints its two
    notices, makes no Europe PMC query and leaves the records as they
    are. *)
Lemma records_second_run (e e' : Scaper.env)
    (o : http_outcome crossref_data) (wa wb : world) :
  store_ok Scaper.fieldnames (fs wa) →
  (Scaper.main e wa).2 = Ok () →
  Scaper.crossref e' = Scaper.crossref e →
  store_ok Scraper.fieldnames (fs wb) →
  (Scraper.main o wb).2 = Ok () →
  Scaper.main e' (Scaper.main e wa).1
  = (emit [Says Searching; Says NoneFound] (Scaper.main e wa).1, Ok ())
  ∧ Scraper.main o (Scraper.main o wb).1
    = (emit [Says Searching; Says NoneFound] (Scraper.main o wb).1, Ok ()).
Proof.
  intros Hoka Hra Hcr Hokb Hrb. split.
  - pose proof (scaper_main_store_ok e wa Hoka) as Hok1.
    assert (∃ papers,
              Scaper.find_open_access_angew_papers_from (Scaper.crossref e)
              = Ok papers
              ∧ identifiers (fs (Scaper.main e wa).1)
                = identifiers (fs wa)
                  ++ ((fun p => Some (Scaper.doi p))
                        <$> Scaper.new_entries_of
                              (list_to_set (identifiers (fs wa))) papers))
      as (papers & Hf & Hids).
    { revert Hra. unfold Scaper.main. cbv zeta.
      destruct (Scaper.find_open_access_angew_papers_from _) as [papers|x];
        [intros _|done].
      exists papers. split; [done|].
      by rewrite save_identifiers by exact Hoka. }
    set (w1 := (Scaper.main e wa).1) in *.
    unfold Scaper.main. cbv zeta. rewrite Hcr, Hf.
    unfold Scaper.save_results_to_csv. rewrite fs_emit.
    rewrite (column_store_ok _ _ getitem_doi _ Hok1), Hids.
    rewrite new_entries_of_again.
    unfold emit. cbn [fs trace]. by rewrite <- app_assoc.
  - pose proof (scraper_main_store_ok o wb Hokb) as Hok1.
    pose proof (scraper_main_fs o wb Hokb) as Hfs.
    assert (∃ data es,
              get_json o = Ok data
              ∧ Scraper.collect (list_to_set (identifiers (fs wb))) (items_of data)
                = Ok es)
      as (data & es & Hget & Hc).
    { revert Hrb. unfold Scraper.main, Scraper.get_crossref_data,
        Scraper.load_existing_dois. cbv zeta.
      destruct (get_json o) as [data|x]; [|done].
      rewrite fs_emit, (column_store_ok _ _ getitem_DOI _ Hokb).
      cbn [mbind result_bind].
      destruct (Scraper.collect _ (items_of data)) as [es|x] eqn:Hes;
        [intros _|done].
      by exists data, es. }
    unfold page in Hfs. rewrite Hget, Hc in Hfs.
    set (w1 := (Scraper.main o wb).1) in *.
    unfold Scraper.main, Scraper.get_crossref_data, Scraper.load_existing_dois.
    cbv zeta. rewrite Hget, fs_emit.
    rewrite (column_store_ok _ _ getitem_DOI _ Hok1). cbn [mbind result_bind].
    erewrite collect_again; [| | |exact Hc].
    + unfold emit. cbn [fs trace]. by rewrite <- app_assoc.
    + intros d. rewrite !elem_of_list_to_set, Hfs.
      destruct es as [|r rs]; [done|].
      unfold Scraper.append_to_csv.
      rewrite (identifiers_append Scraper.fieldnames) by auto using row_of_nonblank.
      rewrite elem_of_app. by left.
    + intros r Hr. rewrite elem_of_list_to_set, Hfs.
      destruct es as [|r0 rs]; [by apply elem_of_nil in Hr|].
      unfold Scraper.append_to_csv.
      rewrite (identifiers_append Scraper.fieldnames) by auto using row_of_nonblank.
      rewrite row_of_ids, elem_of_app. right.
      by apply (list_elem_of_fmap_2 (fun r => Some (Scraper.DOI r))).
Qed.

(** X14 — The second run reports nothing new.  For a store in good order,
    after a run that returned normally and left a file that can be read, a
    further run on the same Crossref answer returns normally as well, prints
    its two notices (the search, then that nothing new was found), makes no
    Europe PMC query and leaves the file as it is. *)
Theorem second_run_reports_none (e e' : Scaper.env)
    (o : http_outcome crossref_data) (ma mb : machine) :
  kept Scaper.fieldnames (file ma) →
  (ScaperOnDisk.main e ma).2 = Ok () →
  readable (file (ScaperOnDisk.main e ma).1) →
  Scaper.crossref e' = Scaper.crossref e →
  kept Scraper.fieldnames (file mb) →
  (ScraperOnDisk.main o mb).2 = Ok () →
  readable (file (ScraperOnDisk.main o mb).1) →
  ScaperOnDisk.main e' (ScaperOnDisk.main e ma).1
  = (say [Says Searching; Says NoneFound] (ScaperOnDisk.main e ma).1, Ok ())
  ∧ ScraperOnDisk.main o (ScraperOnDisk.main o mb).1
    = (say [Says Searching; Says NoneFound] (ScraperOnDisk.main o mb).1, Ok ()).
Proof.
  intros Hka Hra Hreada Hcr Hkb Hrb Hreadb.
  pose proof Hka as (Henda & sta & Hha & Hoka)%kept_holds.
  pose proof Hkb as (Hendb & stb & Hhb & Hokb)%kept_holds.
  destruct (scaper_refines e ma sta Hha) as (Hres_a & _ & _).
  destruct (scraper_refines o mb stb Hhb) as (Hres_b & _ & _).
  rewrite Hra in Hres_a. rewrite Hrb in Hres_b.
  destruct (records_second_run e e' o {| fs := sta; trace := log ma |}
              {| fs := stb; trace := log mb |} Hoka (eq_sym Hres_a) Hcr
              Hokb (eq_sym Hres_b)) as [Hsa Hsb].
  split.
  - destruct (scaper_run_holds e ma sta Henda Hha Hreada) as [Hafter _].
    destruct (scaper_refines e' _ _ Hafter) as (Hres & Hlog & _).
    rewrite scaper_world_after in Hres, Hlog by done.
    rewrite Hsa in Hres, Hlog. cbn [fst snd emit trace] in Hres, Hlog.
    pose proof (scaper_disk_twice e e' ma Hka Hcr) as Hfile.
    destruct (ScaperOnDisk.main e' (ScaperOnDisk.main e ma).1) as [m2 r2].
    cbn [fst snd] in *. subst r2. f_equal.
    rewrite <- (machine_eta m2). unfold say. f_equal; [done|].
    rewrite Hlog. by destruct (scaper_refines e ma sta Hha) as (_ & -> & _).
  - destruct (scraper_run_holds o mb stb Hendb Hhb Hreadb) as [Hafter _].
    destruct (scraper_refines o _ _ Hafter) as (Hres & Hlog & _).
    rewrite scraper_world_after in Hres, Hlog by done.
    rewrite Hsb in Hres, Hlog. cbn [fst snd emit trace] in Hres, Hlog.
    pose proof (scraper_disk_twice o mb Hkb) as Hfile.
    destruct (ScraperOnDisk.main o (ScraperOnDisk.main o mb).1) as [m2 r2].
    cbn [fst snd] in *. subst r2. f_equal.
    rewrite <- (machine_eta m2). unfold say. f_equal; [done|].
    rewrite Hlog. by destruct (scraper_refines o mb stb Hhb) as (_ & -> & _).
Qed.

Lemma second_run_reports_none_witness :
  ScaperOnDisk.main (env_of [work_abc; work_xyz] europepmc_down)
    (ScaperOnDisk.main (env_of [work_abc; work_xyz] europepmc_up)
       (on_disk fresh)).1
  = (say [Says Searching; Says NoneFound]
       (ScaperOnDisk.main (env_of [work_abc; work_xyz] europepmc_up)
          (on_disk fresh)).1, Ok ())
  ∧ ScraperOnDisk.main (answer [work_abc; work_xyz])
      (ScraperOnDisk.main (answer [work_abc; work_xyz])
         (on_disk scraper_store)).1
    = (say [Says Searching; Says NoneFound]
         (ScraperOnDisk.main (answer [work_abc; work_xyz])
            (on_disk scraper_store)).1, Ok ()).
Proof.
  apply (second_run_reports_none
           (env_of [work_abc; work_xyz] europepmc_up)
           (env_of [work_abc; work_xyz] europepmc_down)
           (answer [work_abc; work_xyz]) (on_disk fresh)
           (on_disk scraper_store)).
  - exact I.
  - reflexivity.
  - vm_compute. reflexivity.
  - reflexivity.
  - split; [split; vm_compute; reflexivity|].
    eexists. vm_compute. reflexivity.
  - reflexivity.
  - vm_compute. reflexivity.
Defined.

(** X15 — Reading the own store.  On a file whose first record is the
    script's own header, reading the identifier column never raises
    [KeyError]: blank records are skipped, a record with fewer than three
    fields counts as the identifier [None] and every other record gives its
    third field; and when the iteration over the file ends with an
    exception, which can only be [UnicodeDecodeError] or [csv.Error], that
    exception is what the read raises. *)
Theorem own_store_is_readable (ba bb : string)
    (rows_a rows_b : list (list string)) (stop_a stop_b : option exn) :
  csv_reader ba = (Scaper.fieldnames :: rows_a, stop_a) →
  csv_reader bb = (Scraper.fieldnames :: rows_b, stop_b) →
  read_column "doi" (Some ba)
  = match stop_a with
    | Some x => Raise x
    | None => Ok ((fun r => r !! 2%nat) <$> filter (fun r => r ≠ []) rows_a)
    end
  ∧ ScraperOnDisk.load_existing_dois (Some bb)
    = match stop_b with
      | Some x => Raise x
      | None =>
          Ok (list_to_set
                ((fun r => r !! 2%nat) <$> filter (fun r => r ≠ []) rows_b))
      end
  ∧ (∀ x, stop_a = Some x ∨ stop_b = Some x →
          x = UnicodeDecodeError ∨ x = csv_Error).
Proof.
  intros Ha Hb. split_and!.
  - unfold read_column. rewrite Ha. cbn [fst snd DictReader].
    rewrite (for_each_fmap_ok _ _ (fun r => r !! 2%nat)) by apply getitem_doi.
    by destruct stop_a.
  - unfold ScraperOnDisk.load_existing_dois, read_column.
    rewrite Hb. cbn [fst snd DictReader].
    rewrite (for_each_fmap_ok _ _ (fun r => r !! 2%nat)) by apply getitem_DOI.
    by destruct stop_b.
  - intros x [Hx|Hx].
    + apply (csv_reader_stop ba). by rewrite Ha.
    + apply (csv_reader_stop bb). by rewrite Hb.
Qed.

Lemma own_store_is_readable_witness :
  read_column "doi"
    (Some (writerows [Scaper.fieldnames; ["t"; "2024"; "10.1/a"]; []; ["u"]]))
  = Ok [Some "10.1/a"; None]
  ∧ ScraperOnDisk.load_existing_dois
      (Some (writerows [Scraper.fieldnames; ["t"; "c"; "10.1/a"]]
             +:+ String (ascii_of_nat 195) EmptyString))
    = Raise UnicodeDecodeError.
Proof.
  pose proof (own_store_is_readable
                (writerows [Scaper.fieldnames; ["t"; "2024"; "10.1/a"]; [];
                            ["u"]])
                (writerows [Scraper.fieldnames; ["t"; "c"; "10.1/a"]]
                 +:+ String (ascii_of_nat 195) EmptyString)
                [["t"; "2024"; "10.1/a"]; []; ["u"]] [["t"; "c"; "10.1/a"]]
                None (Some UnicodeDecodeError)) as H.
  destruct H as (Ha & Hb & _); [vm_compute; reflexivity..|].
  split; [exact Ha|exact Hb].
Defined.


